(** * dsan-metadata-stripper: the handlers, the dispatcher and the walker

    A shallow embedding of [src/main.py].  The program is a thin layer over
    three third-party libraries (PyPDF2, python-docx, Pillow), the Python
    standard library ([pathlib], [os.walk], [open], [logging]) and the file
    system.  The embedding keeps that shape:

    - the file system is a finite map from paths to nodes, the log is the list
      of records emitted so far, and every function of [main.py] is a
      computation in a state-and-exception monad over that world;
    - [pathlib], [open] and [os.walk] are written out from their documented
      behaviour;
    - parsing and serialising of PDF, DOCX and image files is left to a
      [Library] parameter: every result holds for any behaviour of the codecs,
      including any failure of theirs. *)

From stdpp Require Import gmap strings list fin_maps.
From Stdlib Require Import ZArith.
From Stdlib.Strings Require Import Ascii String Byte.

Local Open Scope string_scope.
Local Open Scope list_scope.
#[local] Set Warnings "-clear-no-such-hyp".

(** ** Paths ([pathlib.PurePath]) *)

(** A path is the list of its components; [str(p)] joins them with [/]. *)
Abbreviation Path := (list string).

Module pathlib.

(** [p.name]: the final component, [''] when there is none. *)
Definition name (p : Path) : string := List.last p "".

(** [p / s].  Joining with the empty string leaves the path as it is. *)
Definition joinpath (p : Path) (s : string) : Path :=
  if String.eqb s "" then p else p ++ [s].

(** [s.rfind(c)]: index of the last occurrence of [c], or [-1]. *)
Fixpoint rfind (c : ascii) (s : string) : Z :=
  match s with
  | EmptyString => (-1)%Z
  | String a s' =>
      let r := rfind c s' in
      if (0 <=? r)%Z then (r + 1)%Z
      else if Ascii.eqb a c then 0%Z else (-1)%Z
  end.

(** [s[i:]] for a non-negative [i]. *)
Fixpoint slice_from (i : nat) (s : string) : string :=
  match i, s with
  | O, _ => s
  | S k, String _ s' => slice_from k s'
  | S _, EmptyString => EmptyString
  end.

(** [p.suffix]:
<<
    name = self.name
    i = name.rfind('.')
    if 0 < i < len(name) - 1: return name[i:]
    else: return ''
>> *)
Definition suffix (p : Path) : string :=
  let name := name p in
  let i := rfind "." name in
  if ((0 <? i)%Z && (i <? Z.of_nat (String.length name) - 1)%Z)%bool
  then slice_from (Z.to_nat i) name
  else "".

(** [str(p)] *)
Definition str (p : Path) : string := String.concat "/" p.

End pathlib.

(** [s.lower()] on the ASCII range. *)
Definition lower_ascii (c : ascii) : ascii :=
  let n := nat_of_ascii c in
  if ((65 <=? n) && (n <=? 90))%nat%bool then ascii_of_nat (n + 32) else c.

Fixpoint lower (s : string) : string :=
  match s with
  | EmptyString => EmptyString
  | String c s' => String (lower_ascii c) (lower s')
  end.

(** ** The world: file system and log *)

Abbreviation bytes := (list byte).

Inductive node : Type :=
| Dir
| File (content : bytes).

(** Python exceptions: class name and [str(e)].  Only instances of
    [Exception] are modelled (no [KeyboardInterrupt], no [SystemExit]). *)
Record exn : Type := Exn { exn_class : string; exn_str : string }.

Inductive levelname : Type := DEBUG | INFO | WARNING | ERROR.

(** The three handlers, as they appear in the log messages. *)
Inductive handler : Type := PDF | DOCX | IMAGE.

(** The f-strings of [main.py], kept structured. *)
Inductive message : Type :=
| Sanitized (h : handler) (file_path output_path : Path)
| ErrorProcessing (h : handler) (file_path : Path) (e : exn)
| UnsupportedFileType (file_path : Path).

Definition render (m : message) : string :=
  match m with
  | Sanitized PDF f o => "Sanitized PDF: " ++ pathlib.str f ++ " -> " ++ pathlib.str o
  | Sanitized DOCX f o => "Sanitized DOCX: " ++ pathlib.str f ++ " -> " ++ pathlib.str o
  | Sanitized IMAGE f o => "Sanitized Image: " ++ pathlib.str f ++ " -> " ++ pathlib.str o
  | ErrorProcessing PDF f e => "Error processing PDF file " ++ pathlib.str f ++ ": " ++ exn_str e
  | ErrorProcessing DOCX f e => "Error processing DOCX file " ++ pathlib.str f ++ ": " ++ exn_str e
  | ErrorProcessing IMAGE f e => "Error processing image file " ++ pathlib.str f ++ ": " ++ exn_str e
  | UnsupportedFileType f => "Unsupported file type: " ++ pathlib.str f
  end.

(** The source file a log record is about. *)
Definition msg_file (m : message) : Path :=
  match m with
  | Sanitized _ f _ => f
  | ErrorProcessing _ f _ => f
  | UnsupportedFileType f => f
  end.

Abbreviation log_record := (levelname * message)%type.

Record world : Type := World { fs : gmap Path node; log : list log_record }.

(** ** State and exceptions *)

Inductive result (A : Type) : Type :=
| Ok (a : A)
| Raise (e : exn).
Arguments Ok {A} a.
Arguments Raise {A} e.

Definition M (A : Type) : Type := world -> result A * world.

Definition ret {A} (a : A) : M A := fun w => (Ok a, w).

Definition bind {A B} (m : M A) (k : A -> M B) : M B :=
  fun w => match m w with
           | (Ok a, w') => k a w'
           | (Raise e, w') => (Raise e, w')
           end.

Definition raise {A} (e : exn) : M A := fun w => (Raise e, w).

(** [try: body  except Exception as e: handle(e)].  What the body did to the
    world before it raised stays done. *)
Definition try_except {A} (body : M A) (handle : exn -> M A) : M A :=
  fun w => match body w with
           | (Ok a, w') => (Ok a, w')
           | (Raise e, w') => handle e w'
           end.

Declare Scope py_scope.
Delimit Scope py_scope with py.
Notation "x <- c ;; k" := (bind c (fun x => k))
  (at level 100, c at next level, right associativity) : py_scope.
Notation "c ;; k" := (bind c (fun _ => k))
  (at level 100, right associativity) : py_scope.
Local Open Scope py_scope.

(** [for x in xs: body(x)] *)
Fixpoint for_each {A} (xs : list A) (body : A -> M unit) : M unit :=
  match xs with
  | [] => ret tt
  | x :: xs' => body x ;; for_each xs' body
  end.

(** [logging.info], [logging.warning], [logging.error] *)
Definition logging (l : levelname) (m : message) : M unit :=
  fun w => (Ok tt, World (fs w) (log w ++ [(l, m)])).

(** ** Files ([open]) *)

Definition parent (p : Path) : Path := removelast p.

(** Opening [p] for reading and reading it whole. *)
Definition read_file (p : Path) : M bytes :=
  fun w => match fs w !! p with
           | Some (File b) => (Ok b, w)
           | Some Dir => (Raise (Exn "IsADirectoryError" (pathlib.str p)), w)
           | None => (Raise (Exn "FileNotFoundError" (pathlib.str p)), w)
           end.

(** [open(p, "wb")]: creates the file or truncates it. *)
Definition open_wb (p : Path) : M unit :=
  fun w => match fs w !! p with
           | Some Dir => (Raise (Exn "IsADirectoryError" (pathlib.str p)), w)
           | _ =>
               match fs w !! parent p with
               | Some Dir => (Ok tt, World (<[p := File []]> (fs w)) (log w))
               | Some (File _) => (Raise (Exn "NotADirectoryError" (pathlib.str p)), w)
               | None => (Raise (Exn "FileNotFoundError" (pathlib.str p)), w)
               end
           end.

(** [f.write(b)] on the open file [p]: the bytes are appended. *)
Definition fwrite (p : Path) (b : bytes) : M unit :=
  fun w => match fs w !! p with
           | Some (File old) => (Ok tt, World (<[p := File (old ++ b)]> (fs w)) (log w))
           | _ => (Raise (Exn "ValueError" "I/O operation on closed file"), w)
           end.

Definition lift {A} (r : result A) : M A := fun w => (r, w).

(** ** The libraries *)

(** *** PyPDF2 *)

Abbreviation pdf_page := bytes.
Abbreviation pdf_info := (list (string * string)).

(** What [PdfReader] exposes: [reader.pages] and [reader.metadata]. *)
Record PdfFileReader : Type :=
  { pages : list pdf_page; metadata : option pdf_info }.

(** What [PdfWriter] holds: the pages added so far and the [_info] object. *)
Record PdfFileWriter : Type :=
  { _pages : list pdf_page; _info : option pdf_info }.

(** [PdfWriter()]: no pages, and an info dictionary naming the producer. *)
Definition PdfWriter : PdfFileWriter :=
  {| _pages := []; _info := Some [("/Producer", "PyPDF2")] |}.

(** [writer.add_page(page)] *)
Definition add_page (writer : PdfFileWriter) (page : pdf_page) : PdfFileWriter :=
  {| _pages := _pages writer ++ [page]; _info := _info writer |}.

(** [writer._info = v] *)
Definition set__info (writer : PdfFileWriter) (v : option pdf_info) : PdfFileWriter :=
  {| _pages := _pages writer; _info := v |}.

(** *** python-docx and lxml *)

Record CoreProperties : Type :=
  { author : option string;
    category : option string;
    comments : option string;
    content_status : option string;
    created : option string;
    identifier : option string;
    keywords : option string;
    language : option string;
    last_modified_by : option string;
    last_printed : option string;
    modified : option string;
    revision : option string;
    subject : option string;
    title : option string;
    version : option string }.

(** An lxml element: its identity, its tag and its children. *)
#[local] Set Warnings "-register-all".
Inductive elem : Type :=
| Element (ident : nat) (tag : string) (children : list elem).

Definition ident (e : elem) : nat := match e with Element i _ _ => i end.
Definition tag (e : elem) : string := match e with Element _ t _ => t end.
Definition children (e : elem) : list elem := match e with Element _ _ cs => cs end.

(** All elements of a tree, in document order. *)
Fixpoint iter (e : elem) : list elem :=
  match e with
  | Element _ _ cs => e :: flat_map iter cs
  end.

(** [root.xpath("//w:comment")] *)
Definition xpath_comment (root : elem) : list elem :=
  List.filter (fun e => String.eqb (tag e) "w:comment") (iter root).

(** [parent.remove(child)], by the identity of the child, wherever below the
    root the parent is. *)
Fixpoint remove (i : nat) (e : elem) : elem :=
  match e with
  | Element j t cs =>
      Element j t
        ((fix go (cs : list elem) : list elem :=
            match cs with
            | [] => []
            | c :: cs' => if Nat.eqb (ident c) i then go cs' else remove i c :: go cs'
            end) cs)
  end.

Record DocumentObject : Type :=
  { core_properties : CoreProperties;
    element : elem;
    parts : list (string * bytes) }.

(** *** Pillow *)

Abbreviation pixel := (list nat).

Record ImageObject : Type :=
  { mode : string;
    size : nat * nat;
    getdata : list pixel;
    info : list (string * bytes);
    getdata_length : List.length getdata = fst size * snd size }.

(** Bands per pixel of the standard modes. *)
Definition getbands (mode : string) : option nat :=
  if existsb (String.eqb mode) ["1"; "L"; "P"; "I"; "F"; "I;16"] then Some 1
  else if existsb (String.eqb mode) ["LA"; "PA"; "La"] then Some 2
  else if existsb (String.eqb mode) ["RGB"; "YCbCr"; "LAB"; "HSV"] then Some 3
  else if existsb (String.eqb mode) ["RGBA"; "CMYK"; "RGBX"; "RGBa"] then Some 4
  else None.

(** *** What the codecs do is a parameter *)

(** A library call that writes a file by itself ([doc.save(path)],
    [image.save(path)]) returns with the file written, or raises, with or
    without a file left behind. *)
Inductive save_result : Type :=
| Saved (b : bytes)
| SaveFailed (left_behind : option bytes) (e : exn).

Class Library : Type :=
  { (** [PdfReader(stream)] and the reading of its pages *)
    pdf_parse : bytes -> result PdfFileReader;
    (** [writer.write(stream)]: the bytes written, and the exception if it
        raised on the way *)
    pdf_serialize : PdfFileWriter -> bytes * option exn;
    (** [Document(stream)] *)
    docx_parse : bytes -> result DocumentObject;
    (** [doc.save(path)] *)
    docx_serialize : DocumentObject -> save_result;
    (** [Image.open(stream)] and the loading of its pixels *)
    image_decode : bytes -> result ImageObject;
    (** [image.save(path)]: the format follows the extension of the path *)
    image_encode : ImageObject -> Path -> save_result }.

(** [CoreProperties] setters, one per assignment of the DOCX handler. *)
Definition set_author (v : option string) (cp : CoreProperties) : CoreProperties :=
  {| author := v; category := category cp; comments := comments cp;
     content_status := content_status cp; created := created cp;
     identifier := identifier cp; keywords := keywords cp; language := language cp;
     last_modified_by := last_modified_by cp; last_printed := last_printed cp;
     modified := modified cp; revision := revision cp; subject := subject cp;
     title := title cp; version := version cp |}.

Definition set_title (v : option string) (cp : CoreProperties) : CoreProperties :=
  {| author := author cp; category := category cp; comments := comments cp;
     content_status := content_status cp; created := created cp;
     identifier := identifier cp; keywords := keywords cp; language := language cp;
     last_modified_by := last_modified_by cp; last_printed := last_printed cp;
     modified := modified cp; revision := revision cp; subject := subject cp;
     title := v; version := version cp |}.

Definition set_subject (v : option string) (cp : CoreProperties) : CoreProperties :=
  {| author := author cp; category := category cp; comments := comments cp;
     content_status := content_status cp; created := created cp;
     identifier := identifier cp; keywords := keywords cp; language := language cp;
     last_modified_by := last_modified_by cp; last_printed := last_printed cp;
     modified := modified cp; revision := revision cp; subject := v;
     title := title cp; version := version cp |}.

Definition set_keywords (v : option string) (cp : CoreProperties) : CoreProperties :=
  {| author := author cp; category := category cp; comments := comments cp;
     content_status := content_status cp; created := created cp;
     identifier := identifier cp; keywords := v; language := language cp;
     last_modified_by := last_modified_by cp; last_printed := last_printed cp;
     modified := modified cp; revision := revision cp; subject := subject cp;
     title := title cp; version := version cp |}.

Definition set_comments (v : option string) (cp : CoreProperties) : CoreProperties :=
  {| author := author cp; category := category cp; comments := v;
     content_status := content_status cp; created := created cp;
     identifier := identifier cp; keywords := keywords cp; language := language cp;
     last_modified_by := last_modified_by cp; last_printed := last_printed cp;
     modified := modified cp; revision := revision cp; subject := subject cp;
     title := title cp; version := version cp |}.

Definition set_last_modified_by (v : option string) (cp : CoreProperties) : CoreProperties :=
  {| author := author cp; category := category cp; comments := comments cp;
     content_status := content_status cp; created := created cp;
     identifier := identifier cp; keywords := keywords cp; language := language cp;
     last_modified_by := v; last_printed := last_printed cp;
     modified := modified cp; revision := revision cp; subject := subject cp;
     title := title cp; version := version cp |}.

(** [Image.new(mode, size)]: a raster of zeros, no auxiliary data. *)
Definition Image_new (mode : string) (size : nat * nat) : M ImageObject :=
  match getbands mode with
  | Some k =>
      ret {| mode := mode; size := size;
             getdata := replicate (fst size * snd size) (replicate k 0);
             info := [];
             getdata_length := length_replicate _ _ |}
  | None => raise (Exn "ValueError" "unrecognized image mode")
  end.

Definition putdata_length (old data : list pixel) :
  List.length (take (List.length old) data ++ drop (List.length data) old)
  = List.length old.
Proof. rewrite length_app, length_take, length_drop. lia. Qed.

(** [im.putdata(data)]: values are copied from the upper left corner on,
    until either the image or the sequence ends. *)
Definition putdata (im : ImageObject) (data : list pixel) : ImageObject :=
  {| mode := mode im; size := size im;
     getdata := take (List.length (getdata im)) data
                ++ drop (List.length data) (getdata im);
     info := info im;
     getdata_length := eq_trans (putdata_length (getdata im) data) (getdata_length im) |}.

(** How the body of a [for] loop ends: it falls through, or it [break]s. *)
Inductive loop_ctl : Type := Next | Break.

(** ** [os.walk] *)

Module os.

(** [q] is the entry [n] of the directory [top]. *)
Fixpoint entry_name (top q : Path) : option string :=
  match top, q with
  | [], [n] => if String.eqb n "" then None else Some n
  | t :: top', c :: q' => if String.eqb t c then entry_name top' q' else None
  | _, _ => None
  end.

(** [os.scandir(top)]: the entries of [top] with their kind, in the order
    the file system lists them; [None] when [top] cannot be listed. *)
Definition scandir (fsys : gmap Path node) (top : Path) : option (list (string * node)) :=
  match fsys !! top with
  | Some Dir =>
      Some (omap (fun qn : Path * node =>
                    match entry_name top qn.1 with
                    | Some n => Some (n, qn.2)
                    | None => None
                    end) (map_to_list fsys))
  | _ => None
  end.

Definition is_dir (e : string * node) : bool :=
  match e.2 with Dir => true | File _ => false end.

(** [for dirname in dirs: yield from walk(join(top, dirname))], the loop
    around it stopping at the first [break] or exception. *)
Fixpoint descend (walk_into : string -> world -> option (result loop_ctl * world))
    (dirs : list string) (w : world) : option (result loop_ctl * world) :=
  match dirs with
  | [] => Some (Ok Next, w)
  | dirname :: dirs' =>
      match walk_into dirname w with
      | Some (Ok Next, w') => descend walk_into dirs' w'
      | stop => stop
      end
  end.

(** [for root, dirs, files in os.walk(top): body], top-down, without
    following links and with errors of [scandir] ignored ([onerror=None]):
<<
    dirs, nondirs = <scandir(top)>
    yield top, dirs, nondirs
    for dirname in dirs:
        yield from walk(join(top, dirname))
>>
    The generator is consumed by a loop whose body may [break].  The first
    argument bounds the depth of the recursion; [None] is a bound too small
    for the tree. *)
Fixpoint walk (fuel : nat) (top : Path)
    (body : Path * list string * list string -> M loop_ctl)
    (w : world) : option (result loop_ctl * world) :=
  match fuel with
  | O => None
  | S n =>
      match scandir (fs w) top with
      | None => Some (Ok Next, w)
      | Some entries =>
          let dirs := (List.filter is_dir entries).*1 in
          let nondirs := (List.filter (fun e => negb (is_dir e)) entries).*1 in
          match body (top, dirs, nondirs) w with
          | (Ok Next, w1) =>
              descend (fun dirname => walk n (pathlib.joinpath top dirname) body)
                      dirs w1
          | (Ok Break, w1) => Some (Ok Break, w1)
          | (Raise e, w1) => Some (Raise e, w1)
          end
      end
  end.

End os.

(** ** [main.py] *)

Section Main.

Context `{Library}.

(** [PdfReader(file_path)] *)
Definition PdfReader (file_path : Path) : M PdfFileReader :=
  b <- read_file file_path ;; lift (pdf_parse b).

(** [writer.write(f)], [f] being the open file at [output_path] *)
Definition PdfWriter_write (writer : PdfFileWriter) (f : Path) : M unit :=
  fwrite f (pdf_serialize writer).1 ;;
  match (pdf_serialize writer).2 with
  | None => ret tt
  | Some e => raise e
  end.

(** A library call that opens and writes [p] by itself. *)
Definition save_to (r : save_result) (p : Path) : M unit :=
  match r with
  | Saved b => open_wb p ;; fwrite p b
  | SaveFailed None e => raise e
  | SaveFailed (Some b) e => open_wb p ;; fwrite p b ;; raise e
  end.

(** [Document(file_path)] *)
Definition Document (file_path : Path) : M DocumentObject :=
  b <- read_file file_path ;; lift (docx_parse b).

(** [doc.save(output_path)] *)
Definition Document_save (doc : DocumentObject) (output_path : Path) : M unit :=
  save_to (docx_serialize doc) output_path.

(** [Image.open(file_path)] *)
Definition Image_open (file_path : Path) : M ImageObject :=
  b <- read_file file_path ;; lift (image_decode b).

(** [image.save(output_path)] *)
Definition Image_save (image : ImageObject) (output_path : Path) : M unit :=
  save_to (image_encode image output_path) output_path.

(** The [try] block of [strip_pdf_metadata]. *)
Definition strip_pdf_metadata_try (file_path output_path : Path) : M unit :=
  reader <- PdfReader file_path ;;
  let writer := PdfWriter in
  (* for page in reader.pages: writer.add_page(page) *)
  let writer := fold_left add_page (pages reader) writer in
  (* writer._info = None *)
  let writer := set__info writer None in
  (* with open(output_path, "wb") as f: writer.write(f) *)
  open_wb output_path ;;
  PdfWriter_write writer output_path ;;
  logging INFO (Sanitized PDF file_path output_path).

Definition strip_pdf_metadata (file_path output_path : Path) : M unit :=
  try_except (strip_pdf_metadata_try file_path output_path)
    (fun e => logging ERROR (ErrorProcessing PDF file_path e)).

(** The loop over [doc.element.xpath("//w:comment")]:
<<
    parent = comment.getparent()
    parent.remove(comment)
>>
    The root of the tree has no parent: [None.remove] raises. *)
Fixpoint remove_comments (found : list elem) (root : elem) : M elem :=
  match found with
  | [] => ret root
  | comment :: found' =>
      if Nat.eqb (ident comment) (ident root)
      then raise (Exn "AttributeError" "'NoneType' object has no attribute 'remove'")
      else remove_comments found' (remove (ident comment) root)
  end.

(** The [try] block of [strip_docx_metadata]. *)
Definition strip_docx_metadata_try (file_path output_path : Path) : M unit :=
  doc <- Document file_path ;;
  let custom_props := core_properties doc in
  let custom_props := set_author None custom_props in
  let custom_props := set_title None custom_props in
  let custom_props := set_subject None custom_props in
  let custom_props := set_keywords None custom_props in
  let custom_props := set_comments None custom_props in
  let custom_props := set_last_modified_by None custom_props in
  root <- remove_comments (xpath_comment (element doc)) (element doc) ;;
  let doc := {| core_properties := custom_props; element := root; parts := parts doc |} in
  Document_save doc output_path ;;
  logging INFO (Sanitized DOCX file_path output_path).

Definition strip_docx_metadata (file_path output_path : Path) : M unit :=
  try_except (strip_docx_metadata_try file_path output_path)
    (fun e => logging ERROR (ErrorProcessing DOCX file_path e)).

(** The [try] block of [strip_image_metadata]. *)
Definition strip_image_metadata_try (file_path output_path : Path) : M unit :=
  image <- Image_open file_path ;;
  let data := getdata image in
  image_without_metadata <- Image_new (mode image) (size image) ;;
  let image_without_metadata := putdata image_without_metadata data in
  Image_save image_without_metadata output_path ;;
  logging INFO (Sanitized IMAGE file_path output_path).

Definition strip_image_metadata (file_path output_path : Path) : M unit :=
  try_except (strip_image_metadata_try file_path output_path)
    (fun e => logging ERROR (ErrorProcessing IMAGE file_path e)).

Definition process_file (file_path output_dir : Path) : M unit :=
  let file_extension := lower (pathlib.suffix file_path) in
  let output_path := pathlib.joinpath output_dir (pathlib.name file_path) in
  if String.eqb file_extension ".pdf" then
    strip_pdf_metadata file_path output_path
  else if String.eqb file_extension ".docx" then
    strip_docx_metadata file_path output_path
  else if existsb (String.eqb file_extension) [".jpg"; ".jpeg"; ".png"] then
    strip_image_metadata file_path output_path
  else
    logging WARNING (UnsupportedFileType file_path).

(** The body of the loop of [process_directory]. *)
Definition process_directory_body (output_dir : Path) (recursive : bool)
    (item : Path * list string * list string) : M loop_ctl :=
  let '(root, _, files) := item in
  for_each files (fun file =>
    let file_path := pathlib.joinpath root file in
    process_file file_path output_dir) ;;
  if negb recursive then ret Break else ret Next.

Definition process_directory (fuel : nat) (input_dir output_dir : Path)
    (recursive : bool) (w : world) : option (result unit * world) :=
  match os.walk fuel input_dir (process_directory_body output_dir recursive) w with
  | Some (Ok _, w') => Some (Ok tt, w')
  | Some (Raise e, w') => Some (Raise e, w')
  | None => None
  end.

End Main.

(** ** A small instance of the libraries

    Toy codecs, used to run the handlers on concrete files.  A PDF file is
    [%], a byte telling whether it has an info dictionary, and one byte per
    page; a page byte [00] stands for a page whose content stream is broken,
    which the reader accepts lazily and the writer trips over.  A DOCX file is
    [P], a byte telling whether it names an author, and one byte per child of
    the body, [c] for a comment.  An image is [89], width, height and one byte
    per pixel, in mode [L]. *)

Module Toy.

Definition pdf_parse (b : bytes) : result PdfFileReader :=
  match b with
  | x25 :: flag :: ps =>
      Ok {| pages := (fun p => match p with x00 => [] | _ => [p] end) <$> ps;
            metadata := match flag with
                        | x00 => None
                        | _ => Some [("/Author", "alice")]
                        end |}
  | _ => Raise (Exn "PdfReadError" "EOF marker not found")
  end.

Fixpoint write_pages (ps : list pdf_page) : bytes * option exn :=
  match ps with
  | [] => ([], None)
  | [] :: _ => ([], Some (Exn "PdfReadError" "Unable to find 'endstream' marker"))
  | p :: ps' => let r := write_pages ps' in (p ++ r.1, r.2)
  end.

Definition pdf_serialize (writer : PdfFileWriter) : bytes * option exn :=
  let r := write_pages (_pages writer) in
  (x25 :: match _info writer with None => x00 | Some _ => x01 end :: r.1, r.2).

Definition no_props : CoreProperties :=
  {| author := None; category := None; comments := None; content_status := None;
     created := None; identifier := None; keywords := None; language := None;
     last_modified_by := None; last_printed := None; modified := None;
     revision := None; subject := None; title := None; version := None |}.

Fixpoint body_of (i : nat) (b : bytes) : list elem :=
  match b with
  | [] => []
  | x63 :: b' => Element i "w:comment" [] :: body_of (S i) b'
  | _ :: b' => Element i "w:p" [] :: body_of (S i) b'
  end.

Definition docx_parse (b : bytes) : result DocumentObject :=
  match b with
  | x50 :: flag :: body =>
      Ok {| core_properties :=
              match flag with
              | x00 => no_props
              | _ => set_comments (Some "draft") (set_author (Some "alice") no_props)
              end;
            element := Element 0 "w:document" [Element 1 "w:body" (body_of 2 body)];
            parts := [] |}
  | _ => Raise (Exn "PackageNotFoundError" "Package not found")
  end.

Definition docx_serialize (doc : DocumentObject) : save_result :=
  Saved (x50
         :: match author (core_properties doc) with None => x00 | Some _ => x01 end
         :: ((fun e => if String.eqb (tag e) "w:comment" then x63 else x70)
               <$> flat_map children (children (element doc)))).

Definition image_decode (b : bytes) : result ImageObject :=
  match b with
  | x89 :: w :: h :: px =>
      match decide (List.length ((fun p => [Byte.to_nat p]) <$> px)
                    = fst (Byte.to_nat w, Byte.to_nat h) * snd (Byte.to_nat w, Byte.to_nat h)) with
      | left pf =>
          Ok {| mode := "L"; size := (Byte.to_nat w, Byte.to_nat h);
                getdata := (fun p => [Byte.to_nat p]) <$> px;
                info := [("exif", [x01])];
                getdata_length := pf |}
      | right _ => Raise (Exn "OSError" "image file is truncated")
      end
  | _ => Raise (Exn "UnidentifiedImageError" "cannot identify image file")
  end.

Definition byte_of (n : nat) : byte :=
  match Byte.of_nat n with Some b => b | None => xff end.

Definition image_encode (im : ImageObject) (p : Path) : save_result :=
  if String.eqb (mode im) "L" then
    Saved (x89 :: byte_of (fst (size im)) :: byte_of (snd (size im))
           :: ((fun px => byte_of (hd 0 px)) <$> getdata im))
  else SaveFailed None (Exn "OSError" "cannot write mode").

Definition library : Library :=
  Build_Library pdf_parse pdf_serialize docx_parse docx_serialize
    image_decode image_encode.

(** A small tree: [in/] holds a PDF with two pages and an info dictionary, a
    PDF whose second page is broken, a DOCX with an author and two comments,
    an image of 2 x 1 pixels, a text file and a directory [in/sub/] with a
    PDF of its own; [out/] is empty. *)
Definition tree : gmap Path node :=
  list_to_map
    [ ([], Dir);
      (["in"], Dir);
      (["out"], Dir);
      (["in"; "a.pdf"], File [x25; x01; x41; x42]);
      (["in"; "bad.pdf"], File [x25; x01; x41; x00]);
      (["in"; "b.docx"], File [x50; x01; x70; x63; x63]);
      (["in"; "c.PNG"], File [x89; x02; x01; x07; x09]);
      (["in"; "notes.txt"], File [x68; x69]);
      (["in"; "sub"], Dir);
      (["in"; "sub"; "a.pdf"], File [x25; x00; x43]) ].

Definition world0 : world := World tree [].

End Toy.

(** ** What a handler can do to the world *)

(** [open(p, "wb")] succeeds on [p] when [p] is not a directory and lies in an
    existing directory. *)
Definition writable (fsys : gmap Path node) (p : Path) : Prop :=
  fsys !! p ≠ Some Dir ∧ fsys !! parent p = Some Dir.

(** The three ways a handler for [h] called on [file_path] and [output_path]
    ends: the destination written and an [INFO] record; an [ERROR] record and
    the file system as it was; an [ERROR] record and the destination holding
    what had been written when the exception came. *)
Inductive handler_outcome (h : handler) (file_path output_path : Path) (w : world)
  : world -> Prop :=
| outcome_sanitized (b : bytes) :
    writable (fs w) output_path ->
    handler_outcome h file_path output_path w
      (World (<[output_path := File b]> (fs w))
             (log w ++ [(INFO, Sanitized h file_path output_path)]))
| outcome_error (e : exn) :
    handler_outcome h file_path output_path w
      (World (fs w) (log w ++ [(ERROR, ErrorProcessing h file_path e)]))
| outcome_error_partial (b : bytes) (e : exn) :
    writable (fs w) output_path ->
    handler_outcome h file_path output_path w
      (World (<[output_path := File b]> (fs w))
             (log w ++ [(ERROR, ErrorProcessing h file_path e)])).

(** The file system after a run extends the one before: the same directories,
    and every file still there (its content may have changed). *)
Definition fs_grows (f f' : gmap Path node) : Prop :=
  (∀ q, f !! q = Some Dir ↔ f' !! q = Some Dir)
  ∧ (∀ q b, f !! q = Some (File b) → ∃ b', f' !! q = Some (File b')).

(** What [process_file] can do: one of the handlers ran on the destination
    [output_dir / file_path.name], or a [WARNING] record and nothing else. *)
Definition file_outcome (file_path output_dir : Path) (w w' : world) : Prop :=
  (∃ h, handler_outcome h file_path
          (pathlib.joinpath output_dir (pathlib.name file_path)) w w')
  ∨ w' = World (fs w) (log w ++ [(WARNING, UnsupportedFileType file_path)]).

(** The source files of the records logged since [w]. *)
Definition dispatched (w w' : world) : list Path :=
  (fun r : log_record => msg_file r.2) <$> drop (List.length (log w)) (log w').

(** The claim that a failing PDF handler leaves nothing behind, as the
    specification words it: whenever the handler logs an error, the destination
    is as it was before the call. *)
Definition no_output_on_failure : Prop :=
  ∀ (L : Library) (file_path output_path : Path) (w w' : world) (e : exn),
    strip_pdf_metadata file_path output_path w = (Ok tt, w') →
    log w' = log w ++ [(ERROR, ErrorProcessing PDF file_path e)] →
    fs w' !! output_path = fs w !! output_path.

(** The depth of the deepest path of a file system: a bound that is always
    enough for [os.walk]. *)
Definition max_depth (f : gmap Path node) : nat :=
  max_list ((fun qn : Path * node => List.length qn.1) <$> map_to_list f).

Definition depth_bounded (n : nat) (f : gmap Path node) : Prop :=
  ∀ q, f !! q = Some Dir → (List.length q ≤ n)%nat.

(** [top / d1 / ... / dk] is a chain of nested directories. *)
Fixpoint nested (f : gmap Path node) (top : Path) (ds : list string) : Prop :=
  match ds with
  | [] => f !! top = Some Dir
  | d :: ds' => f !! top = Some Dir ∧ d ≠ "" ∧ nested f (top ++ [d]) ds'
  end.

(** The files a directory lists, as [os.walk] yields them. *)
Definition listed_files (f : gmap Path node) (top : Path) : list string :=
  match os.scandir f top with
  | Some entries => (List.filter (fun e => negb (os.is_dir e)) entries).*1
  | None => []
  end.

Definition is_file (f : gmap Path node) (q : Path) : Prop :=
  ∃ b, f !! q = Some (File b).

(** [paths] has every file of every directory nested in [top]. *)
Definition covers (f : gmap Path node) (top : Path) (paths : list Path) : Prop :=
  ∀ ds file, nested f top ds → file ≠ "" → is_file f (top ++ ds ++ [file]) →
             top ++ ds ++ [file] ∈ paths.

(** ** The entry point *)

(** [os.mkdir(p)] *)
Definition os_mkdir (p : Path) : M unit :=
  fun w => match fs w !! p with
           | Some _ => (Raise (Exn "FileExistsError" (pathlib.str p)), w)
           | None =>
               match fs w !! parent p with
               | Some Dir => (Ok tt, World (<[p := Dir]> (fs w)) (log w))
               | Some (File _) => (Raise (Exn "NotADirectoryError" (pathlib.str p)), w)
               | None => (Raise (Exn "FileNotFoundError" (pathlib.str p)), w)
               end
           end.

(** [p.is_dir()] and [p.is_file()] *)
Definition Path_is_dir (p : Path) : M bool :=
  fun w => (Ok match fs w !! p with Some Dir => true | _ => false end, w).

Definition Path_is_file (p : Path) : M bool :=
  fun w => (Ok match fs w !! p with Some (File _) => true | _ => false end, w).

(** [p.mkdir(parents=False, exist_ok=True)]:
<<
      try: os.mkdir(self)
      except FileNotFoundError: raise
      except OSError:
          if not self.is_dir(): raise
>> *)
Definition mkdir_exist_ok (p : Path) : M unit :=
  try_except (os_mkdir p) (fun e =>
    if String.eqb (exn_class e) "FileNotFoundError" then raise e
    else is_d <- Path_is_dir p ;; if is_d then ret tt else raise e).

(** [p.mkdir(parents=True, exist_ok=True)], by recursion on the components of
    [p] from the last one:
<<
      try: os.mkdir(self)
      except FileNotFoundError:
          if self.parent == self: raise
          self.parent.mkdir(parents=True, exist_ok=True)
          self.mkdir(parents=False, exist_ok=True)
      except OSError:
          if not self.is_dir(): raise
>> *)
Fixpoint mkdir_parents (rev_parts : list string) : M unit :=
  let self := rev rev_parts in
  try_except (os_mkdir self) (fun e =>
    if String.eqb (exn_class e) "FileNotFoundError" then
      match rev_parts with
      | [] => raise e
      | _ :: parent_parts => mkdir_parents parent_parts ;; mkdir_exist_ok self
      end
    else is_d <- Path_is_dir self ;; if is_d then ret tt else raise e).

Definition Path_mkdir (p : Path) : M unit := mkdir_parents (rev p).

(** What [parser.parse_args()] returns, the two paths already turned into
    [Path]s. *)
Record Namespace : Type :=
  { input_path : Path; output : Path; recursive : bool; verbose : bool }.

Section EntryPoint.

Context `{Library}.

(** [main], from the parsed arguments on.  The source text ends inside the
    [elif input_path.is_dir():] branch: what the program does when the input
    is not a regular file is the parameter [otherwise].  The level of the
    root logger, [INFO] or [DEBUG] with [--verbose], lets every record of
    this program through, so that [verbose] changes nothing in the log. *)
Definition main (args : Namespace) (otherwise : M unit) : M unit :=
  let input_path := input_path args in
  let output_dir := output args in
  Path_mkdir output_dir ;;
  is_f <- Path_is_file input_path ;;
  if is_f then process_file input_path output_dir
  else otherwise.

End EntryPoint.

(** The result of loading the file at [p], from what the file system has
    there. *)
Definition loaded {A} (parse : bytes -> result A) (p : Path) (src : option node)
  : result A :=
  match src with
  | Some (File b) => parse b
  | Some Dir => Raise (Exn "IsADirectoryError" (pathlib.str p))
  | None => Raise (Exn "FileNotFoundError" (pathlib.str p))
  end.

(** The tree without its [w:comment] subtrees. *)
Fixpoint prune (e : elem) : elem :=
  match e with
  | Element j t cs =>
      Element j t
        ((fix go (cs : list elem) : list elem :=
            match cs with
            | [] => []
            | c :: cs' =>
                if String.eqb (tag c) "w:comment" then go cs' else prune c :: go cs'
            end) cs)
  end.

(** [mkdir(parents=True, exist_ok=True)] can make the path whose reversed
    components are [rev_parts]: going up from it, the first path that exists
    is a directory. *)
Fixpoint creatable (f : gmap Path node) (rev_parts : list string) : Prop :=
  f !! rev rev_parts = Some Dir
  ∨ (f !! rev rev_parts = None
     ∧ match rev_parts with
       | [] => False
       | _ :: parent_parts => creatable f parent_parts
       end).

(** [p] is a file name below [top], through a chain of nested directories. *)
Definition under (f : gmap Path node) (top p : Path) : Prop :=
  ∃ ds file, p = top ++ ds ++ [file] ∧ file ≠ "" ∧ nested f top ds.

(** What a walk from [top] does between [w] and [w']: directories and
    files stay, the records logged are about files below [top], and the file
    system changes at destinations of dispatched files only. *)
Definition walked (output_dir top : Path) (w w' : world) : Prop :=
  fs_grows (fs w) (fs w')
  ∧ ∃ recs, log w' = log w ++ recs
            ∧ (∀ p, p ∈ (fun r : log_record => msg_file r.2) <$> recs →
                    under (fs w) top p ∧ is_file (fs w') p)
            ∧ (∀ q, (∀ p, p ∈ (fun r : log_record => msg_file r.2) <$> recs →
                          q ≠ pathlib.joinpath output_dir (pathlib.name p)) →
                    fs w' !! q = fs w !! q).

(** A second sample tree: no output directory yet, and a regular file where
    an output directory could be asked for. *)
Module Sample.

Definition tree : gmap Path node :=
  list_to_map
    [ ([], Dir);
      (["in"], Dir);
      (["in"; "a.pdf"], File [x25; x01; x41; x42]);
      (["in"; "A.B.PDF"], File [x25; x00; x43]);
      (["in"; "b.docx"], File [x50; x01; x70; x63; x63]);
      (["taken"], File [x68; x69]) ].

Definition world1 : world := World tree [].

End Sample.

(** [remove] for every identity of a list, in one pass. *)
Fixpoint remove_ids (ids : list nat) (e : elem) : elem :=
  match e with
  | Element j t cs =>
      Element j t
        ((fix go (cs : list elem) : list elem :=
            match cs with
            | [] => []
            | c :: cs' =>
                if existsb (Nat.eqb (ident c)) ids then go cs'
                else remove_ids ids c :: go cs'
            end) cs)
  end.

(** What [mkdir] may do to the world: nothing is logged, what exists stays
    as it is, and what is new is a directory on the way to [p]. *)
Definition mkdir_safe (p : Path) (w w' : world) : Prop :=
  log w' = log w
  ∧ (∀ q x, fs w !! q = Some x → fs w' !! q = Some x)
  ∧ (∀ q, fs w !! q = None →
          fs w' !! q = None ∨ (fs w' !! q = Some Dir ∧ q `prefix_of` p)).

(** ** Lemmas on the primitives *)

Lemma world_eta (w : world) : World (fs w) (log w) = w.
Proof. by destruct w. Qed.

Lemma bind_inv {A B} (m : M A) (k : A -> M B) w r w' :
  bind m k w = (r, w') →
  (∃ a w1, m w = (Ok a, w1) ∧ k a w1 = (r, w'))
  ∨ (∃ e, m w = (Raise e, w') ∧ r = Raise e).
Proof.
  unfold bind. destruct (m w) as [[a|e] w1] eqn:E; intros Hk.
  - left. eauto.
  - right. inversion Hk; subst. eauto.
Qed.

Lemma read_file_inv p w r w' :
  read_file p w = (r, w') →
  w' = w ∧ (∀ b, r = Ok b → fs w !! p = Some (File b)).
Proof.
  unfold read_file. destruct (fs w !! p) as [[|b]|] eqn:E; intros Hr;
    inversion Hr; subst; split; try done; intros b' Hb; by inversion Hb.
Qed.

Lemma lift_inv {A} (x : result A) w r w' : lift x w = (r, w') → r = x ∧ w' = w.
Proof. unfold lift. intros Hr. by inversion Hr. Qed.

Lemma open_wb_inv p w r w' :
  open_wb p w = (r, w') →
  (r = Ok tt ∧ writable (fs w) p ∧ w' = World (<[p := File []]> (fs w)) (log w))
  ∨ (∃ e, r = Raise e ∧ w' = w).
Proof.
  unfold open_wb, writable.
  destruct (fs w !! p) as [[|b]|] eqn:Ep;
    destruct (fs w !! parent p) as [[|b']|] eqn:Epar; intros Hr;
    inversion Hr; subst; eauto; left; repeat split; congruence.
Qed.

(** Opening and writing: the destination holds exactly what was written. *)
Lemma open_write_inv p b w r w' :
  (open_wb p ;; fwrite p b) w = (r, w') →
  (r = Ok tt ∧ writable (fs w) p ∧ w' = World (<[p := File b]> (fs w)) (log w))
  ∨ (∃ e, r = Raise e ∧ w' = w).
Proof.
  intros [(a & w1 & Ho & Hw)|(e & Ho & ->)]%bind_inv.
  - apply open_wb_inv in Ho as [(_ & Hok & ->)|(e & ? & _)]; [|done].
    left. unfold fwrite in Hw. simpl in Hw. rewrite lookup_insert_eq in Hw.
    inversion Hw; subst. by rewrite insert_insert_eq.
  - apply open_wb_inv in Ho as [(? & _)|(e' & _ & ->)]; [done|]. eauto.
Qed.

Lemma fs_grows_refl f : fs_grows f f.
Proof. split; eauto. Qed.

Lemma fs_grows_trans f1 f2 f3 : fs_grows f1 f2 → fs_grows f2 f3 → fs_grows f1 f3.
Proof.
  intros [D1 F1] [D2 F2]. split.
  - intros q. by rewrite D1, D2.
  - intros q b Hq. destruct (F1 q b Hq) as [b' Hb']. eauto.
Qed.

Lemma fs_grows_write f p b : f !! p ≠ Some Dir → fs_grows f (<[p := File b]> f).
Proof.
  intros Hp. split.
  - intros q. destruct (decide (p = q)) as [->|Hne].
    + rewrite lookup_insert_eq. split; [done|congruence].
    + by rewrite lookup_insert_ne.
  - intros q c Hq. destruct (decide (p = q)) as [->|Hne].
    + rewrite lookup_insert_eq. eauto.
    + rewrite lookup_insert_ne by done. eauto.
Qed.

Lemma fwrite_fresh p b f l :
  fwrite p b (World (<[p := File []]> f) l) = (Ok tt, World (<[p := File b]> f) l).
Proof.
  unfold fwrite. simpl. rewrite lookup_insert_eq. by rewrite insert_insert_eq.
Qed.


Section Handlers.

Context `{Library}.

(** Every way the [try] block of the PDF handler can end. *)
Lemma strip_pdf_metadata_try_inv file_path output_path w r w' :
  strip_pdf_metadata_try file_path output_path w = (r, w') →
  (∃ e, r = Raise e ∧ w' = w)
  ∨ (∃ b reader,
       fs w !! file_path = Some (File b) ∧ pdf_parse b = Ok reader
       ∧ writable (fs w) output_path
       ∧ let writer := set__info (fold_left add_page (pages reader) PdfWriter) None in
         (r = Ok tt ∧ (pdf_serialize writer).2 = None
          ∧ w' = World (<[output_path := File (pdf_serialize writer).1]> (fs w))
                       (log w ++ [(INFO, Sanitized PDF file_path output_path)]))
         ∨ (∃ e, r = Raise e ∧ (pdf_serialize writer).2 = Some e
                 ∧ w' = World (<[output_path := File (pdf_serialize writer).1]> (fs w))
                              (log w))).
Proof.
  unfold strip_pdf_metadata_try, PdfReader.
  intros [(reader & w1 & Hread & Hrest)|(e & Hread & ->)]%bind_inv.
  - apply bind_inv in Hread as [(b & w2 & Hb & Hp)|(e & Hb & ?)]; [|done].
    apply read_file_inv in Hb as [-> Hb]. specialize (Hb b eq_refl).
    apply lift_inv in Hp as [Hp ->].
    apply bind_inv in Hrest as [([] & w3 & Ho & Hrest)|(e & Ho & ->)].
    + apply open_wb_inv in Ho as [(_ & Hok & ->)|(e & ? & _)]; [|done].
      right. exists b, reader. do 3 (split; [done|]).
      unfold PdfWriter_write in Hrest.
      set (writer := set__info _ None) in *.
      unfold bind at 1 2 in Hrest. rewrite fwrite_fresh in Hrest.
      destruct ((pdf_serialize writer).2) as [e|] eqn:Es.
      * right. exists e. unfold raise in Hrest. by inversion Hrest.
      * left. unfold ret, logging in Hrest. simpl in Hrest. by inversion Hrest.
    + apply open_wb_inv in Ho as [(? & _)|(e' & _ & ->)]; [done|]. eauto.
  - apply bind_inv in Hread as [(b & w2 & Hb & Hp)|(e' & Hb & ?)].
    + apply read_file_inv in Hb as [-> _]. apply lift_inv in Hp as [_ ->]. eauto.
    + apply read_file_inv in Hb as [-> _]. eauto.
Qed.

(** Every way [save_to] can end. *)
Lemma save_to_inv s p w r w' :
  save_to s p w = (r, w') →
  (∃ e, r = Raise e ∧ w' = w)
  ∨ (∃ b, writable (fs w) p ∧ w' = World (<[p := File b]> (fs w)) (log w)
          ∧ ((r = Ok tt ∧ s = Saved b)
             ∨ (∃ e, r = Raise e ∧ s = SaveFailed (Some b) e))).
Proof.
  destruct s as [b|[b|] e]; simpl.
  - intros [(-> & Hok & ->)|?]%open_write_inv; [right|by left].
    exists b. do 2 (split; [done|]). by left.
  - intros [([] & w1 & Hw & Hr)|(e' & Hw & ->)]%bind_inv.
    + apply open_wb_inv in Hw as [(_ & Hok & ->)|(e' & ? & _)]; [|done].
      unfold bind in Hr. rewrite fwrite_fresh in Hr.
      unfold raise in Hr. inversion Hr; subst. right. exists b.
      do 2 (split; [done|]). right. by exists e.
    + apply open_wb_inv in Hw as [(? & _)|(e'' & _ & ->)]; [done|]. eauto.
  - unfold raise. intros Hr. inversion Hr; subst. eauto.
Qed.

(** Every way a load, a pure step, a save and the [INFO] record can end:
    the shape of the [try] blocks of the DOCX and image handlers. *)
Lemma save_and_log_inv s h file_path output_path w r w' :
  (save_to s output_path ;; logging INFO (Sanitized h file_path output_path)) w
  = (r, w') →
  (∃ e, r = Raise e ∧ w' = w)
  ∨ (∃ b, writable (fs w) output_path
          ∧ ((r = Ok tt ∧ s = Saved b
              ∧ w' = World (<[output_path := File b]> (fs w))
                           (log w ++ [(INFO, Sanitized h file_path output_path)]))
             ∨ (∃ e, r = Raise e ∧ s = SaveFailed (Some b) e
                     ∧ w' = World (<[output_path := File b]> (fs w)) (log w)))).
Proof.
  intros [([] & w1 & Hs & Hl)|(e & Hs & ->)]%bind_inv.
  - apply save_to_inv in Hs as [(e & ? & _)|(b & Hok & -> & [[_ ->]|(e & ? & _)])];
      try done.
    unfold logging in Hl. simpl in Hl. inversion Hl; subst.
    right. exists b. split; [done|]. left. eauto.
  - apply save_to_inv in Hs as [(e' & _ & ->)|(b & Hok & -> & [[? _]|(e' & He & ->)])];
      try done; [eauto|].
    right. exists b. split; [done|]. right. exists e'. by inversion He.
Qed.

Lemma remove_comments_inv found root w r w' :
  remove_comments found root w = (r, w') →
  w' = w
  ∧ (∀ root', r = Ok root' →
       root' = fold_left (fun t c => remove (ident c) t) found root
       ∧ Forall (fun c => ident c ≠ ident root) found).
Proof.
  revert root. induction found as [|c found IH]; intros root; simpl.
  - unfold ret. intros Hr. inversion Hr; subst. split; [done|].
    intros root' Hroot. inversion Hroot. by split.
  - destruct (Nat.eqb (ident c) (ident root)) eqn:E.
    + unfold raise. intros Hr. inversion Hr; subst. by split.
    + intros Hr. apply IH in Hr as [-> Hr]. split; [done|].
      intros root' Hroot. destruct (Hr root' Hroot) as [-> Hall]. split; [done|].
      apply Nat.eqb_neq in E. constructor; [done|].
      replace (ident (remove (ident c) root)) with (ident root) in Hall
        by (by destruct root). done.
Qed.

(** Every way the [try] block of the DOCX handler can end. *)
Lemma strip_docx_metadata_try_inv file_path output_path w r w' :
  strip_docx_metadata_try file_path output_path w = (r, w') →
  (∃ e, r = Raise e ∧ w' = w)
  ∨ (∃ b0 doc root b,
       fs w !! file_path = Some (File b0) ∧ docx_parse b0 = Ok doc
       ∧ root = fold_left (fun t c => remove (ident c) t)
                  (xpath_comment (element doc)) (element doc)
       ∧ Forall (fun c => ident c ≠ ident (element doc)) (xpath_comment (element doc))
       ∧ writable (fs w) output_path
       ∧ let doc' :=
           {| core_properties :=
                set_last_modified_by None (set_comments None (set_keywords None
                  (set_subject None (set_title None (set_author None
                    (core_properties doc))))));
              element := root; parts := parts doc |} in
         (r = Ok tt ∧ docx_serialize doc' = Saved b
          ∧ w' = World (<[output_path := File b]> (fs w))
                       (log w ++ [(INFO, Sanitized DOCX file_path output_path)]))
         ∨ (∃ e, r = Raise e ∧ docx_serialize doc' = SaveFailed (Some b) e
                 ∧ w' = World (<[output_path := File b]> (fs w)) (log w))).
Proof.
  unfold strip_docx_metadata_try, Document, Document_save.
  intros [(doc & w1 & Hread & Hrest)|(e & Hread & ->)]%bind_inv.
  - apply bind_inv in Hread as [(b0 & w2 & Hb & Hp)|(e & Hb & ?)]; [|done].
    apply read_file_inv in Hb as [-> Hb]. specialize (Hb b0 eq_refl).
    apply lift_inv in Hp as [Hp ->].
    apply bind_inv in Hrest as [(root & w3 & Hrm & Hrest)|(e & Hrm & ->)].
    + apply remove_comments_inv in Hrm as [-> Hrm].
      destruct (Hrm root eq_refl) as [Hroot Hall].
      apply save_and_log_inv in Hrest
        as [?|(b & Hok & [(-> & Hs & ->)|(e & -> & Hs & ->)])]; [by left|..];
        right; exists b0, doc, root, b; do 5 (split; [done|]); [by left|].
      right. by exists e.
    + apply remove_comments_inv in Hrm as [-> _]. eauto.
  - apply bind_inv in Hread as [(b & w2 & Hb & Hp)|(e' & Hb & ?)].
    + apply read_file_inv in Hb as [-> _]. apply lift_inv in Hp as [_ ->]. eauto.
    + apply read_file_inv in Hb as [-> _]. eauto.
Qed.

Lemma Image_new_inv m sz w r w' :
  Image_new m sz w = (r, w') →
  w' = w
  ∧ (∀ im, r = Ok im →
       mode im = m ∧ size im = sz ∧ info im = []
       ∧ List.length (getdata im) = fst sz * snd sz).
Proof.
  unfold Image_new. destruct (getbands m) as [k|]; unfold ret, raise;
    intros Hr; inversion Hr; subst; (split; [done|]); intros im Him;
    inversion Him; subst; simpl. by rewrite length_replicate.
Qed.

(** Every way the [try] block of the image handler can end. *)
Lemma strip_image_metadata_try_inv file_path output_path w r w' :
  strip_image_metadata_try file_path output_path w = (r, w') →
  (∃ e, r = Raise e ∧ w' = w)
  ∨ (∃ b0 image blank b,
       fs w !! file_path = Some (File b0) ∧ image_decode b0 = Ok image
       ∧ Image_new (mode image) (size image) w = (Ok blank, w)
       ∧ writable (fs w) output_path
       ∧ let image_without_metadata := putdata blank (getdata image) in
         (r = Ok tt ∧ image_encode image_without_metadata output_path = Saved b
          ∧ w' = World (<[output_path := File b]> (fs w))
                       (log w ++ [(INFO, Sanitized IMAGE file_path output_path)]))
         ∨ (∃ e, r = Raise e
                 ∧ image_encode image_without_metadata output_path
                   = SaveFailed (Some b) e
                 ∧ w' = World (<[output_path := File b]> (fs w)) (log w))).
Proof.
  unfold strip_image_metadata_try, Image_open, Image_save.
  intros [(image & w1 & Hread & Hrest)|(e & Hread & ->)]%bind_inv.
  - apply bind_inv in Hread as [(b0 & w2 & Hb & Hp)|(e & Hb & ?)]; [|done].
    apply read_file_inv in Hb as [-> Hb]. specialize (Hb b0 eq_refl).
    apply lift_inv in Hp as [Hp ->].
    apply bind_inv in Hrest as [(blank & w3 & Hnew & Hrest)|(e & Hnew & ->)].
    + pose proof (Image_new_inv _ _ _ _ _ Hnew) as [-> _].
      apply save_and_log_inv in Hrest
        as [?|(b & Hok & [(-> & Hs & ->)|(e & -> & Hs & ->)])]; [by left|..];
        right; exists b0, image, blank, b; do 3 (split; [done|]);
        (split; [done|]); [by left|].
      right. by exists e.
    + apply Image_new_inv in Hnew as [-> _]. eauto.
  - apply bind_inv in Hread as [(b & w2 & Hb & Hp)|(e' & Hb & ?)].
    + apply read_file_inv in Hb as [-> _]. apply lift_inv in Hp as [_ ->]. eauto.
    + apply read_file_inv in Hb as [-> _]. eauto.
Qed.

(** A [try] block that ends in one of the three ways, wrapped in the
    [except] clause of a handler, gives a handler outcome and never raises. *)
Lemma try_except_outcome h file_path output_path (body : M unit) w :
  (∀ r w', body w = (r, w') →
     (∃ e, r = Raise e ∧ w' = w)
     ∨ (∃ b, writable (fs w) output_path
             ∧ ((r = Ok tt
                 ∧ w' = World (<[output_path := File b]> (fs w))
                              (log w ++ [(INFO, Sanitized h file_path output_path)]))
                ∨ (∃ e, r = Raise e
                        ∧ w' = World (<[output_path := File b]> (fs w)) (log w))))) →
  ∃ w', try_except body (fun e => logging ERROR (ErrorProcessing h file_path e)) w
        = (Ok tt, w')
        ∧ handler_outcome h file_path output_path w w'.
Proof.
  intros Hbody. unfold try_except. destruct (body w) as [r w1] eqn:E.
  destruct (Hbody r w1 eq_refl)
    as [(e & -> & ->)|(b & Hok & [(-> & ->)|(e & -> & ->)])].
  - eexists. split; [done|]. apply outcome_error.
  - eexists. split; [done|]. by apply outcome_sanitized.
  - eexists. split; [done|]. unfold logging. simpl. by apply outcome_error_partial.
Qed.

Lemma strip_pdf_metadata_outcome file_path output_path w :
  ∃ w', strip_pdf_metadata file_path output_path w = (Ok tt, w')
        ∧ handler_outcome PDF file_path output_path w w'.
Proof.
  apply try_except_outcome. intros r w' Hr.
  apply strip_pdf_metadata_try_inv in Hr
    as [?|(b & reader & _ & _ & Hok & [(-> & _ & ->)|(e & -> & _ & ->)])];
    [by left|..]; right; eexists; (split; [done|]); [by left|right; by exists e].
Qed.

Lemma strip_docx_metadata_outcome file_path output_path w :
  ∃ w', strip_docx_metadata file_path output_path w = (Ok tt, w')
        ∧ handler_outcome DOCX file_path output_path w w'.
Proof.
  apply try_except_outcome. intros r w' Hr.
  apply strip_docx_metadata_try_inv in Hr
    as [?|(b0 & doc & root & b & _ & _ & _ & _ & Hok
           & [(-> & _ & ->)|(e & -> & _ & ->)])];
    [by left|..]; right; exists b; (split; [done|]); [by left|right; by exists e].
Qed.

Lemma strip_image_metadata_outcome file_path output_path w :
  ∃ w', strip_image_metadata file_path output_path w = (Ok tt, w')
        ∧ handler_outcome IMAGE file_path output_path w w'.
Proof.
  apply try_except_outcome. intros r w' Hr.
  apply strip_image_metadata_try_inv in Hr
    as [?|(b0 & image & blank & b & _ & _ & _ & Hok
           & [(-> & _ & ->)|(e & -> & _ & ->)])];
    [by left|..]; right; exists b; (split; [done|]); [by left|right; by exists e].
Qed.

Lemma process_file_outcome file_path output_dir w :
  ∃ w', process_file file_path output_dir w = (Ok tt, w')
        ∧ file_outcome file_path output_dir w w'.
Proof.
  unfold process_file, file_outcome.
  destruct (String.eqb _ ".pdf").
  { destruct (strip_pdf_metadata_outcome file_path
      (pathlib.joinpath output_dir (pathlib.name file_path)) w) as (w' & ? & ?).
    exists w'. split; [done|]. left. by exists PDF. }
  destruct (String.eqb _ ".docx").
  { destruct (strip_docx_metadata_outcome file_path
      (pathlib.joinpath output_dir (pathlib.name file_path)) w) as (w' & ? & ?).
    exists w'. split; [done|]. left. by exists DOCX. }
  destruct (existsb _ _).
  { destruct (strip_image_metadata_outcome file_path
      (pathlib.joinpath output_dir (pathlib.name file_path)) w) as (w' & ? & ?).
    exists w'. split; [done|]. left. by exists IMAGE. }
  eexists. split; [done|]. by right.
Qed.

(** A handler changes the file system at its destination only, keeps the
    directories, and adds exactly one record, about its source file. *)
Lemma handler_outcome_frame h file_path output_path w w' q :
  handler_outcome h file_path output_path w w' →
  q ≠ output_path → fs w' !! q = fs w !! q.
Proof.
  intros [b Hok|e|b e Hok] Hq; simpl; [|done|]; by rewrite lookup_insert_ne.
Qed.

Lemma handler_outcome_grows h file_path output_path w w' :
  handler_outcome h file_path output_path w w' → fs_grows (fs w) (fs w').
Proof.
  intros [b [Hok _]|e|b e [Hok _]]; simpl;
    [by apply fs_grows_write|apply fs_grows_refl|by apply fs_grows_write].
Qed.

Lemma handler_outcome_log h file_path output_path w w' :
  handler_outcome h file_path output_path w w' →
  ∃ l m, log w' = log w ++ [(l, m)] ∧ msg_file m = file_path.
Proof. intros [b Hok|e|b e Hok]; simpl; eauto. Qed.

Lemma file_outcome_frame file_path output_dir w w' q :
  file_outcome file_path output_dir w w' →
  q ≠ pathlib.joinpath output_dir (pathlib.name file_path) →
  fs w' !! q = fs w !! q.
Proof.
  intros [[h Hh]| ->] Hq; [|done]. by eapply handler_outcome_frame.
Qed.

Lemma file_outcome_grows file_path output_dir w w' :
  file_outcome file_path output_dir w w' → fs_grows (fs w) (fs w').
Proof.
  intros [[h Hh]| ->]; [by eapply handler_outcome_grows|apply fs_grows_refl].
Qed.

Lemma file_outcome_log file_path output_dir w w' :
  file_outcome file_path output_dir w w' →
  ∃ l m, log w' = log w ++ [(l, m)] ∧ msg_file m = file_path.
Proof.
  intros [[h Hh]| ->]; [by eapply handler_outcome_log|simpl; eauto].
Qed.

End Handlers.

(** ** Extensions *)

Lemma rfind_absent c s :
  c ∉ list_ascii_of_string s → pathlib.rfind c s = (-1)%Z.
Proof.
  induction s as [|a s IH]; simpl; [done|].
  intros Hc. rewrite IH by (intros ?; apply Hc; by right). simpl.
  destruct (Ascii.eqb_spec a c) as [->|]; [|done].
  exfalso. apply Hc. by left.
Qed.

Lemma suffix_no_dot p :
  "."%char ∉ list_ascii_of_string (pathlib.name p) → pathlib.suffix p = "".
Proof. intros Hp. unfold pathlib.suffix. by rewrite rfind_absent. Qed.

Lemma suffix_dotfile p s :
  pathlib.name p = String "." s → "."%char ∉ list_ascii_of_string s →
  pathlib.suffix p = "".
Proof.
  intros Hp Hs. unfold pathlib.suffix. rewrite Hp. simpl.
  by rewrite rfind_absent.
Qed.

Section Dispatch.

Context `{Library}.

Lemma process_file_unsupported file_path output_dir w :
  lower (pathlib.suffix file_path) ∉ [".pdf"; ".docx"; ".jpg"; ".jpeg"; ".png"] →
  process_file file_path output_dir w
  = (Ok tt, World (fs w) (log w ++ [(WARNING, UnsupportedFileType file_path)])).
Proof.
  intros Hext. unfold process_file.
  destruct (String.eqb_spec (lower (pathlib.suffix file_path)) ".pdf") as [E|_].
  { exfalso. apply Hext. rewrite E. set_solver. }
  destruct (String.eqb_spec (lower (pathlib.suffix file_path)) ".docx") as [E|_].
  { exfalso. apply Hext. rewrite E. set_solver. }
  simpl.
  destruct (String.eqb_spec (lower (pathlib.suffix file_path)) ".jpg") as [E|_].
  { exfalso. apply Hext. rewrite E. set_solver. }
  destruct (String.eqb_spec (lower (pathlib.suffix file_path)) ".jpeg") as [E|_].
  { exfalso. apply Hext. rewrite E. set_solver. }
  destruct (String.eqb_spec (lower (pathlib.suffix file_path)) ".png") as [E|_].
  { exfalso. apply Hext. rewrite E. set_solver. }
  done.
Qed.

(** C6.  The dispatcher routes a path by its lower-cased extension: [.pdf]
    to the PDF handler, [.docx] to the DOCX handler, [.jpg], [.jpeg] and
    [.png] to the image handler, each called on the destination
    [output_dir / file_path.name]; for any other extension no handler runs,
    one warning is logged and the file system is left as it was. *)
Theorem process_file_routes (file_path output_dir : Path) (w : world) :
  (lower (pathlib.suffix file_path) = ".pdf" →
     process_file file_path output_dir w
     = strip_pdf_metadata file_path
         (pathlib.joinpath output_dir (pathlib.name file_path)) w)
  ∧ (lower (pathlib.suffix file_path) = ".docx" →
     process_file file_path output_dir w
     = strip_docx_metadata file_path
         (pathlib.joinpath output_dir (pathlib.name file_path)) w)
  ∧ (lower (pathlib.suffix file_path) ∈ [".jpg"; ".jpeg"; ".png"] →
     process_file file_path output_dir w
     = strip_image_metadata file_path
         (pathlib.joinpath output_dir (pathlib.name file_path)) w)
  ∧ (lower (pathlib.suffix file_path) ∉ [".pdf"; ".docx"; ".jpg"; ".jpeg"; ".png"] →
     process_file file_path output_dir w
     = (Ok tt, World (fs w) (log w ++ [(WARNING, UnsupportedFileType file_path)]))).
Proof.
  repeat split.
  - intros E. unfold process_file. by rewrite E.
  - intros E. unfold process_file. by rewrite E.
  - intros E. unfold process_file.
    repeat (apply elem_of_cons in E as [->|E]; [done|]).
    by apply elem_of_nil in E.
  - apply process_file_unsupported.
Qed.

(** C10.  A path whose suffix is empty is an unsupported type: no handler
    runs, one warning is logged, the file system is left as it was.  The
    suffix is empty for a name without a dot and for a name whose only dot
    is the leading one, such as [.pdf]. *)
Theorem empty_suffix_unsupported (file_path output_dir : Path) (w : world) :
  (pathlib.suffix file_path = "" →
     process_file file_path output_dir w
     = (Ok tt, World (fs w) (log w ++ [(WARNING, UnsupportedFileType file_path)])))
  ∧ ("."%char ∉ list_ascii_of_string (pathlib.name file_path) →
     pathlib.suffix file_path = "")
  ∧ (∀ s, pathlib.name file_path = String "." s →
          "."%char ∉ list_ascii_of_string s →
          pathlib.suffix file_path = "").
Proof.
  split; [|split].
  - intros E. apply process_file_unsupported. rewrite E. simpl.
    intros Hin. repeat (apply elem_of_cons in Hin as [?|Hin]; [done|]).
    by apply elem_of_nil in Hin.
  - apply suffix_no_dot.
  - apply suffix_dotfile.
Qed.

End Dispatch.

(** ** Element trees *)

Lemma elem_induction (P : elem → Prop) :
  (∀ i t cs, Forall P cs → P (Element i t cs)) → ∀ e, P e.
Proof.
  intros HP. fix IH 1. intros [i t cs]. apply HP.
  induction cs as [|c cs IHcs]; constructor; [apply IH|apply IHcs].
Qed.

Lemma iter_unfold e : iter e = e :: flat_map iter (children e).
Proof. by destruct e. Qed.

Lemma remove_unfold i j t cs :
  remove i (Element j t cs)
  = Element j t
      (List.map (remove i) (List.filter (fun c => negb (Nat.eqb (ident c) i)) cs)).
Proof.
  simpl. f_equal. induction cs as [|c cs IH]; simpl; [done|].
  destruct (Nat.eqb (ident c) i); simpl; congruence.
Qed.



Lemma in_descendants c cs y : In c cs → In y (iter c) → In y (flat_map iter cs).
Proof. intros Hc Hy. apply in_flat_map. eauto. Qed.





(** ** The handlers *)


Lemma dispatched_app w w' recs :
  log w' = log w ++ recs →
  dispatched w w' = (fun r : log_record => msg_file r.2) <$> recs.
Proof.
  intros Hlog. unfold dispatched. by rewrite Hlog, drop_app_length.
Qed.

Section Claims.

Context `{Library}.

(** A loop that dispatches one file after the other never raises, keeps
    the directories and logs one record per file, in order. *)
Lemma for_each_process_file {A} (g : A → Path) (xs : list A) output_dir w :
  ∃ w' recs,
    for_each xs (fun x => process_file (g x) output_dir) w = (Ok tt, w')
    ∧ fs_grows (fs w) (fs w')
    ∧ log w' = log w ++ recs
    ∧ (fun r : log_record => msg_file r.2) <$> recs = g <$> xs.
Proof.
  revert w. induction xs as [|x xs IH]; intros w; simpl.
  - exists w, []. unfold ret. rewrite app_nil_r.
    split; [done|]. split; [apply fs_grows_refl|]. by split.
  - destruct (process_file_outcome (g x) output_dir w) as (w1 & Hrun & Hout).
    destruct (IH w1) as (w' & recs & Hrest & Hgrow & Hlog & Hrecs).
    destruct (file_outcome_log _ _ _ _ Hout) as (l & m & Hlog1 & Hm).
    exists w', ((l, m) :: recs). unfold bind. rewrite Hrun. split; [done|].
    split; [|split].
    + eapply fs_grows_trans; [by eapply file_outcome_grows|done].
    + rewrite Hlog, Hlog1. by rewrite <- app_assoc.
    + rewrite !fmap_cons, Hrecs. simpl. by rewrite Hm.
Qed.




(** C4.  Each handler returns normally on every input; when its [try]
    block raises, the exception is logged as an error with the file path, on
    top of whatever the block had done; and a batch of files is dispatched
    to the end, one record per file, whatever fails on the way. *)
Theorem handlers_catch_every_error (file_path output_path : Path) (w : world) :
  (∃ w', strip_pdf_metadata file_path output_path w = (Ok tt, w')
         ∧ ∀ e w1, strip_pdf_metadata_try file_path output_path w = (Raise e, w1) →
             w' = World (fs w1)
                        (log w1 ++ [(ERROR, ErrorProcessing PDF file_path e)]))
  ∧ (∃ w', strip_docx_metadata file_path output_path w = (Ok tt, w')
         ∧ ∀ e w1, strip_docx_metadata_try file_path output_path w = (Raise e, w1) →
             w' = World (fs w1)
                        (log w1 ++ [(ERROR, ErrorProcessing DOCX file_path e)]))
  ∧ (∃ w', strip_image_metadata file_path output_path w = (Ok tt, w')
         ∧ ∀ e w1, strip_image_metadata_try file_path output_path w = (Raise e, w1) →
             w' = World (fs w1)
                        (log w1 ++ [(ERROR, ErrorProcessing IMAGE file_path e)]))
  ∧ (∀ (files : list Path) (output_dir : Path),
       ∃ w', for_each files (fun file => process_file file output_dir) w = (Ok tt, w')
             ∧ dispatched w w' = files).
Proof.
  split; [|split; [|split]].
  - destruct (strip_pdf_metadata_outcome file_path output_path w) as (w' & Hrun & _).
    exists w'. split; [done|]. intros e w1 Htry.
    unfold strip_pdf_metadata, try_except in Hrun. rewrite Htry in Hrun.
    unfold logging in Hrun. by inversion Hrun.
  - destruct (strip_docx_metadata_outcome file_path output_path w) as (w' & Hrun & _).
    exists w'. split; [done|]. intros e w1 Htry.
    unfold strip_docx_metadata, try_except in Hrun. rewrite Htry in Hrun.
    unfold logging in Hrun. by inversion Hrun.
  - destruct (strip_image_metadata_outcome file_path output_path w) as (w' & Hrun & _).
    exists w'. split; [done|]. intros e w1 Htry.
    unfold strip_image_metadata, try_except in Hrun. rewrite Htry in Hrun.
    unfold logging in Hrun. by inversion Hrun.
  - intros files output_dir.
    destruct (for_each_process_file id files output_dir w)
      as (w' & recs & Hrun & _ & Hlog & Hrecs).
    exists w'. split; [exact Hrun|].
    rewrite (dispatched_app _ _ _ Hlog), Hrecs. apply list_fmap_id.
Qed.

End Claims.

(** ** Where the handlers write *)

Lemma name_of_file (dir : Path) (file : string) : pathlib.name (dir ++ [file]) = file.
Proof. unfold pathlib.name. apply last_last. Qed.

Lemma joinpath_name (p : Path) (s : string) : s ≠ "" → pathlib.joinpath p s = p ++ [s].
Proof.
  intros Hs. unfold pathlib.joinpath. by destruct (String.eqb_spec s "").
Qed.

Section Effects.

Context `{Library}.

(** C5, as the code has it.  When the PDF handler fails, either nothing has
    been written, or the destination had been opened and [writer.write]
    raised: the destination then holds the bytes written up to the
    exception.  Nothing is written when the input cannot be read or parsed,
    or when the destination cannot be opened.  The DOCX and image handlers,
    whose library call opens the destination itself, leave nothing or what
    that call left behind when it raised. *)
Theorem failure_output (file_path output_path : Path) (w : world) :
  (∀ w' e,
     strip_pdf_metadata file_path output_path w = (Ok tt, w') →
     log w' = log w ++ [(ERROR, ErrorProcessing PDF file_path e)] →
     (fs w' = fs w
      ∨ ∃ input reader,
          fs w !! file_path = Some (File input)
          ∧ pdf_parse input = Ok reader
          ∧ writable (fs w) output_path
          ∧ let writer := set__info (fold_left add_page (pages reader) PdfWriter) None in
            (pdf_serialize writer).2 = Some e
            ∧ fs w' = <[output_path := File (pdf_serialize writer).1]> (fs w))
     ∧ ((∀ input reader, fs w !! file_path = Some (File input) →
                         pdf_parse input ≠ Ok reader) → fs w' = fs w)
     ∧ (¬ writable (fs w) output_path → fs w' = fs w))
  ∧ (∀ w' e,
       strip_docx_metadata file_path output_path w = (Ok tt, w') →
       log w' = log w ++ [(ERROR, ErrorProcessing DOCX file_path e)] →
       fs w' = fs w
       ∨ ∃ doc b, docx_serialize doc = SaveFailed (Some b) e
                  ∧ writable (fs w) output_path
                  ∧ fs w' = <[output_path := File b]> (fs w))
  ∧ (∀ w' e,
       strip_image_metadata file_path output_path w = (Ok tt, w') →
       log w' = log w ++ [(ERROR, ErrorProcessing IMAGE file_path e)] →
       fs w' = fs w
       ∨ ∃ image b, image_encode image output_path = SaveFailed (Some b) e
                    ∧ writable (fs w) output_path
                    ∧ fs w' = <[output_path := File b]> (fs w)).
Proof.
  split; [|split]; intros w' e.
  - unfold strip_pdf_metadata, try_except.
    destruct (strip_pdf_metadata_try file_path output_path w) as [r w1] eqn:Htry.
    apply strip_pdf_metadata_try_inv in Htry
      as [(e' & -> & ->)|(input & reader & Hin & Hparse & Hok
                          & [(-> & _ & ->)|(e' & -> & Hser & ->)])].
    + unfold logging. intros Hrun _. inversion Hrun; subst. simpl. by eauto.
    + intros Hrun Hlog. inversion Hrun; subst. simpl in Hlog.
      apply app_inv_head in Hlog. done.
    + unfold logging. simpl. intros Hrun Hlog. inversion Hrun; subst. simpl in *.
      apply app_inv_head in Hlog. inversion Hlog; subst.
      split; [|split].
      * right. by exists input, reader.
      * intros Hload. by destruct (Hload input reader).
      * done.
  - unfold strip_docx_metadata, try_except.
    destruct (strip_docx_metadata_try file_path output_path w) as [r w1] eqn:Htry.
    apply strip_docx_metadata_try_inv in Htry
      as [(e' & -> & ->)|(input & doc & root & b & _ & _ & _ & _ & Hok
                          & [(-> & _ & ->)|(e' & -> & Hser & ->)])].
    + unfold logging. intros Hrun _. inversion Hrun; subst. by left.
    + intros Hrun Hlog. inversion Hrun; subst. simpl in Hlog.
      apply app_inv_head in Hlog. done.
    + unfold logging. simpl. intros Hrun Hlog. inversion Hrun; subst. simpl in *.
      apply app_inv_head in Hlog. inversion Hlog; subst.
      right. eexists _, b. by split.
  - unfold strip_image_metadata, try_except.
    destruct (strip_image_metadata_try file_path output_path w) as [r w1] eqn:Htry.
    apply strip_image_metadata_try_inv in Htry
      as [(e' & -> & ->)|(input & image & blank & b & _ & _ & _ & Hok
                          & [(-> & _ & ->)|(e' & -> & Henc & ->)])].
    + unfold logging. intros Hrun _. inversion Hrun; subst. by left.
    + intros Hrun Hlog. inversion Hrun; subst. simpl in Hlog.
      apply app_inv_head in Hlog. done.
    + unfold logging. simpl. intros Hrun Hlog. inversion Hrun; subst. simpl in *.
      apply app_inv_head in Hlog. inversion Hlog; subst.
      right. eexists _, b. by split.
Qed.


(** C9.  Processing a file changes the file system at the destination
    [output_dir / file_path.name] only; the source file is as it was,
    provided the destination is not the source itself. *)
Theorem source_is_only_read (file_path output_dir : Path) (w : world) :
  ∃ w', process_file file_path output_dir w = (Ok tt, w')
        ∧ (∀ q, q ≠ pathlib.joinpath output_dir (pathlib.name file_path) →
                fs w' !! q = fs w !! q)
        ∧ (pathlib.joinpath output_dir (pathlib.name file_path) ≠ file_path →
           fs w' !! file_path = fs w !! file_path).
Proof.
  destruct (process_file_outcome file_path output_dir w) as (w' & Hrun & Hout).
  exists w'. split; [done|]. split.
  - intros q Hq. by eapply file_outcome_frame.
  - intros Hne. eapply file_outcome_frame; [done|]. congruence.
Qed.

End Effects.

(** ** The walker *)

Lemma entry_name_spec top q n :
  os.entry_name top q = Some n ↔ q = top ++ [n] ∧ n ≠ "".
Proof.
  revert q. induction top as [|t top IH]; intros q; simpl.
  - destruct q as [|c [|c' q']]; [naive_solver| |naive_solver].
    destruct (String.eqb_spec c ""); naive_solver.
  - destruct q as [|c q']; [naive_solver|].
    destruct (String.eqb_spec t c) as [->|]; [|naive_solver].
    rewrite IH. naive_solver.
Qed.

Lemma scandir_dir f top entries :
  os.scandir f top = Some entries → f !! top = Some Dir.
Proof. unfold os.scandir. by destruct (f !! top) as [[|b]|]. Qed.

Lemma scandir_none f top : os.scandir f top = None → f !! top ≠ Some Dir.
Proof. unfold os.scandir. by destruct (f !! top) as [[|b]|]. Qed.

Lemma scandir_spec f top entries n nd :
  os.scandir f top = Some entries →
  (n, nd) ∈ entries ↔ n ≠ "" ∧ f !! (top ++ [n]) = Some nd.
Proof.
  unfold os.scandir. destruct (f !! top) as [[|b]|]; try done.
  intros Hs. inversion Hs; subst. clear Hs. rewrite list_elem_of_omap. split.
  - intros ([q nd'] & Hq & Hn). simpl in Hn.
    destruct (os.entry_name top q) as [n'|] eqn:E; [|done].
    inversion Hn; subst. apply entry_name_spec in E as [-> Hne].
    by apply elem_of_map_to_list in Hq.
  - intros [Hne Hq]. exists (top ++ [n], nd). split.
    + by apply elem_of_map_to_list.
    + simpl. by rewrite (proj2 (entry_name_spec top (top ++ [n]) n)).
Qed.

Lemma listed_dirs (entries : list (string * node)) d :
  d ∈ (List.filter os.is_dir entries).*1 ↔ (d, Dir) ∈ entries.
Proof.
  rewrite list_elem_of_fmap. split.
  - intros ([d' nd] & -> & Hin). apply list_elem_of_In, filter_In in Hin as [Hin Hd].
    apply list_elem_of_In in Hin. unfold os.is_dir in Hd. simpl in *.
    by destruct nd.
  - intros Hin. exists (d, Dir). split; [done|].
    apply list_elem_of_In, filter_In. split; [by apply list_elem_of_In|done].
Qed.

Lemma listed_nondirs (entries : list (string * node)) x :
  x ∈ (List.filter (fun e => negb (os.is_dir e)) entries).*1
  ↔ ∃ b, (x, File b) ∈ entries.
Proof.
  rewrite list_elem_of_fmap. split.
  - intros ([x' nd] & -> & Hin). apply list_elem_of_In, filter_In in Hin as [Hin Hd].
    apply list_elem_of_In in Hin. unfold os.is_dir in Hd. simpl in *.
    destruct nd as [|b]; [done|]. by exists b.
  - intros [b Hin]. exists (x, File b). split; [done|].
    apply list_elem_of_In, filter_In. split; [by apply list_elem_of_In|done].
Qed.

Lemma max_depth_bounded f : depth_bounded (max_depth f) f.
Proof.
  intros q Hq. unfold max_depth. apply max_list_elem_of_le.
  apply list_elem_of_fmap. exists (q, Dir). split; [done|].
  by apply elem_of_map_to_list.
Qed.

Lemma depth_bounded_grows n f f' :
  fs_grows f f' → depth_bounded n f → depth_bounded n f'.
Proof. intros [Hd _] Hb q Hq. apply Hb. by apply Hd. Qed.

Lemma nested_head f top ds : nested f top ds → f !! top = Some Dir.
Proof. destruct ds; simpl; naive_solver. Qed.

Lemma nested_grows f f' top ds : fs_grows f f' → nested f top ds → nested f' top ds.
Proof.
  intros [Hd _]. revert top. induction ds as [|d ds IH]; intros top; simpl.
  - apply Hd.
  - intros (Ht & Hne & Hn). split; [by apply Hd|]. split; [done|]. by apply IH.
Qed.

Lemma is_file_grows f f' q : fs_grows f f' → is_file f q → is_file f' q.
Proof. intros [_ Hf] [b Hb]. by apply (Hf q b). Qed.

Lemma covers_grows f f' top paths :
  fs_grows f f' → covers f' top paths → covers f top paths.
Proof.
  intros Hg Hc ds file Hn Hne Hfile.
  apply Hc; [by eapply nested_grows|done|by eapply is_file_grows].
Qed.

Lemma covers_mono f top paths paths' :
  paths ⊆ paths' → covers f top paths → covers f top paths'.
Proof. intros Hsub Hc ds file Hn Hne Hfile. apply Hsub. by apply Hc. Qed.

Lemma walk_unfold n top body w :
  os.walk (S n) top body w
  = match os.scandir (fs w) top with
    | None => Some (Ok Next, w)
    | Some entries =>
        match body (top, (List.filter os.is_dir entries).*1,
                    (List.filter (fun e => negb (os.is_dir e)) entries).*1) w with
        | (Ok Next, w1) =>
            os.descend (fun dirname => os.walk n (pathlib.joinpath top dirname) body)
                       (List.filter os.is_dir entries).*1 w1
        | (Ok Break, w1) => Some (Ok Break, w1)
        | (Raise e, w1) => Some (Raise e, w1)
        end
    end.
Proof. reflexivity. Qed.

Section Walker.

Context `{Library}.

(** One round of the loop of [process_directory]: the files of the item are
    dispatched in order, and the round ends in a [break] unless recursion is
    on. *)
Lemma process_directory_body_spec output_dir recursive top dirs files w :
  ∃ w' recs,
    process_directory_body output_dir recursive (top, dirs, files) w
    = (Ok (if recursive then Next else Break), w')
    ∧ fs_grows (fs w) (fs w')
    ∧ log w' = log w ++ recs
    ∧ (fun r : log_record => msg_file r.2) <$> recs = pathlib.joinpath top <$> files.
Proof.
  destruct (for_each_process_file (pathlib.joinpath top) files output_dir w)
    as (w' & recs & Hrun & Hgrow & Hlog & Hrecs).
  exists w', recs. split; [|done].
  unfold process_directory_body, bind. rewrite Hrun. by destruct recursive.
Qed.

(** The loop over the subdirectories, each visit of which completes and
    covers its subtree. *)
Lemma descend_spec (visit : string → world → option (result loop_ctl * world))
    (top : Path) (dirs : list string) (w : world) :
  (∀ d u, d ∈ dirs → fs_grows (fs w) (fs u) →
     ∃ u' recs, visit d u = Some (Ok Next, u')
                ∧ fs_grows (fs u) (fs u')
                ∧ log u' = log u ++ recs
                ∧ covers (fs u) (top ++ [d])
                    ((fun r : log_record => msg_file r.2) <$> recs)) →
  ∃ w' recs, os.descend visit dirs w = Some (Ok Next, w')
             ∧ fs_grows (fs w) (fs w')
             ∧ log w' = log w ++ recs
             ∧ ∀ d, d ∈ dirs →
                 covers (fs w) (top ++ [d])
                   ((fun r : log_record => msg_file r.2) <$> recs).
Proof.
  revert w. induction dirs as [|d dirs IH]; intros w Hvisit; simpl.
  - exists w, []. rewrite app_nil_r.
    split; [done|]. split; [apply fs_grows_refl|]. split; [done|].
    intros d Hd. by apply elem_of_nil in Hd.
  - destruct (Hvisit d w) as (u & recs1 & Hrun & Hgrow1 & Hlog1 & Hcov1);
      [by left|apply fs_grows_refl|].
    rewrite Hrun.
    destruct (IH u) as (w' & recs2 & Hrest & Hgrow2 & Hlog2 & Hcov2).
    { intros d' u' Hd' Hu'. apply Hvisit; [by right|].
      by eapply fs_grows_trans. }
    exists w', (recs1 ++ recs2). split; [done|]. split; [|split].
    + by eapply fs_grows_trans.
    + by rewrite Hlog2, Hlog1, <- app_assoc.
    + intros d' Hd'. rewrite fmap_app.
      apply elem_of_cons in Hd' as [->|Hd'].
      * eapply covers_mono; [|done]. set_solver.
      * eapply covers_mono; [|eapply covers_grows; [done|by apply Hcov2]].
        set_solver.
Qed.

(** With recursion on, a walk with enough fuel completes, never breaks,
    and dispatches every file of every directory nested in [top]. *)
Lemma walk_recursive output_dir fuel :
  ∀ top w bound,
    (0 < fuel)%nat → depth_bounded bound (fs w) →
    (bound < fuel + List.length top)%nat →
    ∃ w' recs,
      os.walk fuel top (process_directory_body output_dir true) w = Some (Ok Next, w')
      ∧ fs_grows (fs w) (fs w')
      ∧ log w' = log w ++ recs
      ∧ covers (fs w) top ((fun r : log_record => msg_file r.2) <$> recs).
Proof.
  induction fuel as [|n IH]; intros top w bound Hpos Hbound Hfuel; [lia|].
  rewrite walk_unfold. destruct (os.scandir (fs w) top) as [entries|] eqn:Hscan.
  - destruct (process_directory_body_spec output_dir true top
                (List.filter os.is_dir entries).*1
                (List.filter (fun e => negb (os.is_dir e)) entries).*1 w)
      as (w1 & recs1 & Hbody & Hgrow1 & Hlog1 & Hrecs1).
    rewrite Hbody.
    destruct (descend_spec
                (fun dirname =>
                   os.walk n (pathlib.joinpath top dirname)
                     (process_directory_body output_dir true))
                top (List.filter os.is_dir entries).*1 w1)
      as (w' & recs2 & Hrun & Hgrow2 & Hlog2 & Hcov2).
    { intros d u Hd Hu. apply listed_dirs in Hd.
      apply (scandir_spec _ _ _ _ _ Hscan) in Hd as [Hne Hd].
      assert (Hgrow : fs_grows (fs w) (fs u)) by (by eapply fs_grows_trans).
      assert (Hdu : fs u !! (top ++ [d]) = Some Dir) by (by apply Hgrow).
      pose proof (depth_bounded_grows _ _ _ Hgrow Hbound) as Hbu.
      pose proof (Hbu _ Hdu) as Hlen. rewrite length_app in Hlen. simpl in Hlen.
      rewrite joinpath_name by done.
      apply (IH (top ++ [d]) u bound); [lia|done|].
      rewrite length_app. simpl. lia. }
    exists w', (recs1 ++ recs2). split; [done|]. split; [|split].
    + by eapply fs_grows_trans.
    + by rewrite Hlog2, Hlog1, <- app_assoc.
    + intros ds file Hnest Hne Hfile. rewrite fmap_app, Hrecs1.
      destruct ds as [|d ds]; simpl in *.
      * apply elem_of_app. left. destruct Hfile as [b Hb].
        rewrite <- (joinpath_name top file) by done.
        apply list_elem_of_fmap. exists file. split; [done|].
        apply listed_nondirs. exists b.
        by apply (scandir_spec _ _ _ _ _ Hscan).
      * destruct Hnest as (_ & Hd & Hnest). apply elem_of_app. right.
        assert (Hin : d ∈ (List.filter os.is_dir entries).*1).
        { apply listed_dirs, (scandir_spec _ _ _ _ _ Hscan).
          split; [done|]. by eapply nested_head. }
        pose proof (covers_grows _ _ _ _ Hgrow1 (Hcov2 d Hin)) as Hcov.
        specialize (Hcov ds file Hnest Hne).
        rewrite <- !app_assoc in Hcov. simpl in Hcov. by apply Hcov.
  - exists w, []. rewrite app_nil_r.
    split; [done|]. split; [apply fs_grows_refl|]. split; [done|].
    intros ds file Hnest _ _. apply nested_head in Hnest.
    by apply scandir_none in Hscan.
Qed.

Lemma listed_files_spec f top file :
  file ∈ listed_files f top
  ↔ file ≠ "" ∧ f !! top = Some Dir ∧ is_file f (top ++ [file]).
Proof.
  unfold listed_files, is_file.
  destruct (os.scandir f top) as [entries|] eqn:Hscan.
  - rewrite listed_nondirs. split.
    + intros [b Hb]. apply (scandir_spec _ _ _ _ _ Hscan) in Hb as [Hne Hb].
      split; [done|]. split; [by eapply scandir_dir|by exists b].
    + intros (Hne & _ & b & Hb). exists b.
      by apply (scandir_spec _ _ _ _ _ Hscan).
  - split; [by intros ?%elem_of_nil|].
    intros (_ & Hdir & _). by apply scandir_none in Hscan.
Qed.

(** C7.  With enough fuel for the depth of the tree the walk completes.
    When recursion is off, the files dispatched are exactly the files
    listed in the top-level directory, in the order listed: no file of any
    subdirectory is.  When recursion is on, every file of every directory
    nested below the top-level one, at any depth, is dispatched. *)
Theorem process_directory_walk
    (fuel : nat) (input_dir output_dir : Path) (w : world) :
  (max_depth (fs w) < fuel)%nat →
  (∃ w', process_directory fuel input_dir output_dir false w = Some (Ok tt, w')
         ∧ dispatched w w'
           = pathlib.joinpath input_dir <$> listed_files (fs w) input_dir
         ∧ ∀ p, p ∈ dispatched w w'
                ↔ ∃ file, file ≠ "" ∧ p = input_dir ++ [file]
                          ∧ fs w !! input_dir = Some Dir ∧ is_file (fs w) p)
  ∧ (∃ w', process_directory fuel input_dir output_dir true w = Some (Ok tt, w')
         ∧ ∀ ds file,
             nested (fs w) input_dir ds → file ≠ "" →
             is_file (fs w) (input_dir ++ ds ++ [file]) →
             input_dir ++ ds ++ [file] ∈ dispatched w w').
Proof.
  intros Hfuel. split.
  - destruct fuel as [|n]; [lia|].
    assert (Hrun : ∃ w' recs,
               process_directory (S n) input_dir output_dir false w = Some (Ok tt, w')
               ∧ log w' = log w ++ recs
               ∧ (fun r : log_record => msg_file r.2) <$> recs
                 = pathlib.joinpath input_dir <$> listed_files (fs w) input_dir).
    { unfold process_directory, listed_files. rewrite walk_unfold.
      destruct (os.scandir (fs w) input_dir) as [entries|] eqn:Hscan.
      - destruct (process_directory_body_spec output_dir false input_dir
                    (List.filter os.is_dir entries).*1
                    (List.filter (fun e => negb (os.is_dir e)) entries).*1 w)
          as (w1 & recs1 & Hbody & _ & Hlog1 & Hrecs1).
        rewrite Hbody. by exists w1, recs1.
      - exists w, []. by rewrite app_nil_r. }
    destruct Hrun as (w' & recs & Hrun & Hlog & Hrecs).
    exists w'. split; [done|].
    rewrite (dispatched_app _ _ _ Hlog), Hrecs. split; [done|].
    intros p. rewrite list_elem_of_fmap. split.
    + intros (file & -> & (Hne & Hdir & Hfile)%listed_files_spec).
      exists file. by rewrite joinpath_name.
    + intros (file & Hne & -> & Hdir & Hfile). exists file.
      rewrite joinpath_name by done. split; [done|].
      by apply listed_files_spec.
  - destruct (walk_recursive output_dir fuel input_dir w (max_depth (fs w)))
      as (w' & recs & Hrun & _ & Hlog & Hcov);
      [lia|apply max_depth_bounded|lia|].
    exists w'. unfold process_directory. rewrite Hrun. split; [done|].
    rewrite (dispatched_app _ _ _ Hlog). exact Hcov.
Qed.

End Walker.

(** * Further properties of the code *)
(** ** Runs of the handlers *)

Lemma open_wb_writable p w :
  writable (fs w) p →
  open_wb p w = (Ok tt, World (<[p := File []]> (fs w)) (log w)).
Proof.
  intros [Hp Hpar]. unfold open_wb. rewrite Hpar.
  by destruct (fs w !! p) as [[|b]|].
Qed.

Lemma open_wb_not_writable p w :
  ¬ writable (fs w) p → ∃ e, open_wb p w = (Raise e, w).
Proof.
  intros Hn. destruct (open_wb p w) as [r w'] eqn:E.
  apply open_wb_inv in E as [(_ & Hok & _)|(e & -> & ->)]; [done|eauto].
Qed.

Lemma read_file_run p w : read_file p w = (loaded Ok p (fs w !! p), w).
Proof. unfold read_file, loaded. by destruct (fs w !! p) as [[|b]|]. Qed.

Lemma load_run {A} (parse : bytes → result A) p w :
  (b <- read_file p ;; lift (parse b)) w = (loaded parse p (fs w !! p), w).
Proof.
  unfold bind. rewrite read_file_run. unfold loaded, lift.
  by destruct (fs w !! p) as [[|b]|].
Qed.


Lemma save_to_not_writable s p w :
  ¬ writable (fs w) p → ∃ e, save_to s p w = (Raise e, w).
Proof.
  intros Hn. destruct (open_wb_not_writable _ _ Hn) as [e He].
  destruct s as [b|[b|] e']; simpl; unfold bind, raise; rewrite ?He; eauto.
Qed.



Section Runs.

Context `{Library}.

(** The PDF handler on a writable destination, as a function of what the
    file system has at the source. *)
Lemma strip_pdf_metadata_run file_path output_path w :
  writable (fs w) output_path →
  strip_pdf_metadata file_path output_path w
  = (Ok tt,
     match loaded pdf_parse file_path (fs w !! file_path) with
     | Raise e => World (fs w) (log w ++ [(ERROR, ErrorProcessing PDF file_path e)])
     | Ok reader =>
         let writer := set__info (fold_left add_page (pages reader) PdfWriter) None in
         World (<[output_path := File (pdf_serialize writer).1]> (fs w))
               (log w ++ [match (pdf_serialize writer).2 with
                          | None => (INFO, Sanitized PDF file_path output_path)
                          | Some e => (ERROR, ErrorProcessing PDF file_path e)
                          end])
     end).
Proof.
  intros Hok. unfold strip_pdf_metadata, try_except, strip_pdf_metadata_try, PdfReader.
  unfold bind at 1. rewrite load_run.
  destruct (loaded pdf_parse file_path (fs w !! file_path)) as [reader|e]; [|done].
  unfold bind at 1. rewrite (open_wb_writable _ _ Hok).
  unfold PdfWriter_write, bind. rewrite fwrite_fresh.
  by destruct (pdf_serialize _).2.
Qed.



End Runs.

Section HandlerEdges.

Context `{Library}.

(** X3.  A source path that is not a regular file (missing, or a
    directory) makes each handler log one error, [FileNotFoundError] or
    [IsADirectoryError], with the file path, and write nothing. *)
Theorem unreadable_source_is_logged (file_path output_path : Path) (w : world) :
  (∀ b, fs w !! file_path ≠ Some (File b)) →
  ∃ e,
    (exn_class e = "FileNotFoundError" ∨ exn_class e = "IsADirectoryError")
    ∧ strip_pdf_metadata file_path output_path w
      = (Ok tt, World (fs w) (log w ++ [(ERROR, ErrorProcessing PDF file_path e)]))
    ∧ strip_docx_metadata file_path output_path w
      = (Ok tt, World (fs w) (log w ++ [(ERROR, ErrorProcessing DOCX file_path e)]))
    ∧ strip_image_metadata file_path output_path w
      = (Ok tt, World (fs w) (log w ++ [(ERROR, ErrorProcessing IMAGE file_path e)])).
Proof.
  intros Hsrc.
  assert (Hload : ∃ e,
             (exn_class e = "FileNotFoundError" ∨ exn_class e = "IsADirectoryError")
             ∧ ∀ A (parse : bytes → result A),
                 loaded parse file_path (fs w !! file_path) = Raise e).
  { unfold loaded. destruct (fs w !! file_path) as [[|b]|] eqn:E.
    - exists (Exn "IsADirectoryError" (pathlib.str file_path)). by split; [right|].
    - by destruct (Hsrc b).
    - exists (Exn "FileNotFoundError" (pathlib.str file_path)). by split; [left|]. }
  destruct Hload as (e & Hclass & Hload).
  exists e. split; [done|].
  unfold strip_pdf_metadata, strip_docx_metadata, strip_image_metadata, try_except,
    strip_pdf_metadata_try, strip_docx_metadata_try, strip_image_metadata_try,
    PdfReader, Document, Image_open.
  split; [|split]; unfold bind at 1; by rewrite load_run, Hload.
Qed.

(** X4.  A destination that cannot be opened (it is a directory, or its
    directory does not exist) makes each handler log one error and write
    nothing, whatever the source is. *)
Theorem unwritable_destination_is_logged (file_path output_path : Path) (w : world) :
  ¬ writable (fs w) output_path →
  (∃ e, strip_pdf_metadata file_path output_path w
        = (Ok tt, World (fs w) (log w ++ [(ERROR, ErrorProcessing PDF file_path e)])))
  ∧ (∃ e, strip_docx_metadata file_path output_path w
          = (Ok tt, World (fs w) (log w ++ [(ERROR, ErrorProcessing DOCX file_path e)])))
  ∧ (∃ e, strip_image_metadata file_path output_path w
          = (Ok tt, World (fs w) (log w ++ [(ERROR, ErrorProcessing IMAGE file_path e)]))).
Proof.
  intros Hn. split; [|split].
  - destruct (strip_pdf_metadata_outcome file_path output_path w) as (w' & -> & Hout).
    inversion Hout; subst; [done|by eexists|done].
  - destruct (strip_docx_metadata_outcome file_path output_path w) as (w' & -> & Hout).
    inversion Hout; subst; [done|by eexists|done].
  - destruct (strip_image_metadata_outcome file_path output_path w) as (w' & -> & Hout).
    inversion Hout; subst; [done|by eexists|done].
Qed.



End HandlerEdges.

Lemma parent_of_file (dir : Path) (file : string) : parent (dir ++ [file]) = dir.
Proof. unfold parent. apply removelast_last. Qed.



Section Composition.

Context `{Library}.


(** X6.  A PDF processed into its own directory is overwritten in place:
    the source then holds what [writer.write] wrote, the partial bytes of a
    failed write included, and the original content is gone. *)
Theorem pdf_in_place_overwrites_source
    (dir : Path) (file : string) (w : world) (input : bytes) (reader : PdfFileReader) :
  file ≠ "" →
  lower (pathlib.suffix (dir ++ [file])) = ".pdf" →
  fs w !! dir = Some Dir →
  fs w !! (dir ++ [file]) = Some (File input) →
  pdf_parse input = Ok reader →
  ∃ w', process_file (dir ++ [file]) dir w = (Ok tt, w')
        ∧ fs w' !! (dir ++ [file])
          = Some (File (pdf_serialize
                          (set__info (fold_left add_page (pages reader) PdfWriter)
                                     None)).1).
Proof.
  intros Hfile Hext Hdir Hsrc Hparse.
  assert (Hok : writable (fs w) (dir ++ [file])).
  { split; [by rewrite Hsrc|by rewrite parent_of_file]. }
  unfold process_file. rewrite Hext. simpl.
  rewrite name_of_file, joinpath_name by done.
  rewrite (strip_pdf_metadata_run _ _ _ Hok). unfold loaded. rewrite Hsrc, Hparse.
  eexists. split; [done|]. simpl. by rewrite lookup_insert_eq.
Qed.


(** X17.  The info dictionary of the input never reaches the output of
    the PDF handler: two inputs with the same pages give the same destination
    content and the same record. *)
Theorem pdf_output_ignores_input_metadata
    (file_path output_path : Path) (w1 w2 : world) (b1 b2 : bytes)
    (r1 r2 : PdfFileReader) :
  fs w1 !! file_path = Some (File b1) → pdf_parse b1 = Ok r1 →
  fs w2 !! file_path = Some (File b2) → pdf_parse b2 = Ok r2 →
  pages r1 = pages r2 →
  writable (fs w1) output_path → writable (fs w2) output_path →
  ∃ w1' w2',
    strip_pdf_metadata file_path output_path w1 = (Ok tt, w1')
    ∧ strip_pdf_metadata file_path output_path w2 = (Ok tt, w2')
    ∧ fs w1' !! output_path = fs w2' !! output_path
    ∧ drop (List.length (log w1)) (log w1') = drop (List.length (log w2)) (log w2').
Proof.
  intros Hs1 Hp1 Hs2 Hp2 Hpages Hok1 Hok2.
  rewrite (strip_pdf_metadata_run _ _ _ Hok1), (strip_pdf_metadata_run _ _ _ Hok2).
  unfold loaded. rewrite Hs1, Hs2, Hp1, Hp2, Hpages.
  do 2 eexists. do 2 (split; [done|]). cbn [fs log].
  by rewrite !lookup_insert_eq, !drop_app_length.
Qed.




End Composition.

(** ** The tree the DOCX handler saves *)

Lemma remove_ids_unfold ids j t cs :
  remove_ids ids (Element j t cs)
  = Element j t
      (List.map (remove_ids ids)
         (List.filter (fun c => negb (existsb (Nat.eqb (ident c)) ids)) cs)).
Proof.
  simpl. f_equal. induction cs as [|c cs IH]; simpl; [done|].
  destruct (existsb (Nat.eqb (ident c)) ids); simpl; congruence.
Qed.

Lemma prune_unfold j t cs :
  prune (Element j t cs)
  = Element j t
      (List.map prune
         (List.filter (fun c => negb (String.eqb (tag c) "w:comment")) cs)).
Proof.
  simpl. f_equal. induction cs as [|c cs IH]; simpl; [done|].
  destruct (String.eqb (tag c) "w:comment"); simpl; congruence.
Qed.

Lemma remove_ids_ident ids e : ident (remove_ids ids e) = ident e.
Proof. by destruct e. Qed.

Lemma remove_ids_nil e : remove_ids [] e = e.
Proof.
  induction e as [j t cs IH] using elem_induction.
  rewrite remove_ids_unfold. f_equal. simpl.
  induction cs as [|c cs IHcs]; simpl; [done|].
  apply Forall_cons in IH as [Hc Hcs]. rewrite Hc. f_equal. by apply IHcs.
Qed.

Lemma filter_map_comm {A B} (f : A → B) (P : B → bool) (l : list A) :
  List.filter P (List.map f l) = List.map f (List.filter (fun a => P (f a)) l).
Proof.
  induction l as [|a l IH]; simpl; [done|].
  destruct (P (f a)); simpl; congruence.
Qed.

Lemma filter_filter_and {A} (P Q : A → bool) (l : list A) :
  List.filter P (List.filter Q l) = List.filter (fun a => Q a && P a) l.
Proof.
  induction l as [|a l IH]; simpl; [done|].
  destruct (Q a); simpl; [|done]. destruct (P a); simpl; congruence.
Qed.

(** Removing one more identity. *)
Lemma remove_remove_ids i ids e :
  remove i (remove_ids ids e) = remove_ids (ids ++ [i]) e.
Proof.
  induction e as [j t cs IH] using elem_induction.
  rewrite !remove_ids_unfold, remove_unfold. f_equal.
  rewrite filter_map_comm, filter_filter_and, List.map_map.
  rewrite Forall_forall in IH.
  erewrite filter_ext; [apply map_ext_in|].
  - intros c Hc. apply filter_In in Hc as [Hc _].
    apply IH. by apply list_elem_of_In.
  - intros c. simpl. rewrite remove_ids_ident, existsb_app. simpl.
    rewrite orb_false_r, negb_orb. done.
Qed.

Lemma fold_remove_ids found ids e :
  fold_left (fun t c => remove (ident c) t) found (remove_ids ids e)
  = remove_ids (ids ++ List.map ident found) e.
Proof.
  revert ids. induction found as [|c found IH]; intros ids; simpl.
  - by rewrite app_nil_r.
  - rewrite remove_remove_ids, IH. by rewrite <- app_assoc.
Qed.

(** When the identities to remove are those of the comments, the pass cuts
    the comment subtrees and nothing else. *)
Lemma remove_ids_prune ids e :
  (∀ x, In x (flat_map iter (children e)) →
        existsb (Nat.eqb (ident x)) ids = String.eqb (tag x) "w:comment") →
  remove_ids ids e = prune e.
Proof.
  induction e as [j t cs IH] using elem_induction. intros Hids.
  rewrite remove_ids_unfold, prune_unfold. f_equal. simpl in Hids.
  rewrite Forall_forall in IH.
  erewrite filter_ext_in; [apply map_ext_in|].
  - intros c Hc. apply filter_In in Hc as [Hc _].
    apply IH; [by apply list_elem_of_In|].
    intros x Hx. apply Hids. eapply in_descendants; [done|].
    rewrite iter_unfold. by right.
  - intros c Hc. simpl. f_equal. apply Hids.
    eapply in_descendants; [done|]. rewrite iter_unfold. by left.
Qed.

Lemma NoDup_map_inj {A B} (f : A → B) (l : list A) x y :
  List.NoDup (List.map f l) → In x l → In y l → f x = f y → x = y.
Proof.
  induction l as [|a l IH]; simpl; [done|].
  intros Hnd [->|Hx] [->|Hy] Hf; try done.
  - apply NoDup_cons_iff in Hnd as [Hna _]. exfalso. apply Hna.
    rewrite Hf. by apply in_map.
  - apply NoDup_cons_iff in Hnd as [Hna _]. exfalso. apply Hna.
    rewrite <- Hf. by apply in_map.
  - apply NoDup_cons_iff in Hnd as [_ Hnd]. by apply IH.
Qed.

(** With distinct identities, the loop of the DOCX handler computes
    [prune]. *)
Lemma remove_comments_prune root :
  List.NoDup (List.map ident (iter root)) →
  fold_left (fun t c => remove (ident c) t) (xpath_comment root) root = prune root.
Proof.
  intros Hnd. rewrite <- (remove_ids_nil root) at 2. rewrite fold_remove_ids. simpl.
  apply remove_ids_prune. intros x Hx.
  assert (Hxi : In x (iter root)) by (rewrite iter_unfold; by right).
  destruct (String.eqb_spec (tag x) "w:comment") as [Ht|Ht].
  - apply existsb_exists. exists (ident x). split; [|apply Nat.eqb_refl].
    apply in_map, filter_In. split; [done|by apply String.eqb_eq].
  - apply not_true_is_false. intros (i & Hi & Heq)%existsb_exists.
    apply Nat.eqb_eq in Heq. subst i.
    apply in_map_iff in Hi as (y & Hid & Hy).
    apply filter_In in Hy as [Hy Hty]. apply String.eqb_eq in Hty.
    apply Ht. rewrite <- (NoDup_map_inj ident (iter root) y x Hnd Hy Hxi Hid). done.
Qed.

Section Pruned.

Context `{Library}.

(** X8.  When the elements of the input tree have distinct identities,
    the tree the DOCX handler saves is the input tree with its [w:comment]
    subtrees cut out: every other element is kept, in place and in order. *)
Theorem docx_tree_is_pruned (file_path output_path : Path) (w w' : world) :
  strip_docx_metadata_try file_path output_path w = (Ok tt, w') →
  (∀ input doc, fs w !! file_path = Some (File input) → docx_parse input = Ok doc →
                List.NoDup (List.map ident (iter (element doc)))) →
  ∃ input doc doc' output,
    fs w !! file_path = Some (File input)
    ∧ docx_parse input = Ok doc
    ∧ fs w' !! output_path = Some (File output)
    ∧ docx_serialize doc' = Saved output
    ∧ element doc' = prune (element doc).
Proof.
  intros Hrun Hnd.
  apply strip_docx_metadata_try_inv in Hrun
    as [(e & ? & _)|(input & doc & root & output & Hin & Hparse & -> & _ & _
                     & [(_ & Hser & ->)|(e & ? & _)])]; try done.
  eexists input, doc, _, output.
  do 2 (split; [done|]). split; [simpl; by rewrite lookup_insert_eq|].
  split; [exact Hser|]. cbn [element]. apply remove_comments_prune. by eapply Hnd.
Qed.

End Pruned.

(** ** The extension of a name *)

Lemma string_length_app (s1 s2 : string) :
  String.length (s1 ++ s2)%string = String.length s1 + String.length s2.
Proof. induction s1 as [|a s1 IH]; simpl; [done|]. by rewrite IH. Qed.

Lemma rfind_lower_bound c s : (-1 ≤ pathlib.rfind c s)%Z.
Proof.
  induction s as [|a s IH]; simpl; [done|].
  destruct (Z.leb_spec 0 (pathlib.rfind c s)); [lia|].
  destruct (Ascii.eqb a c); lia.
Qed.

Lemma rfind_app c s1 s2 :
  c ∉ list_ascii_of_string s2 →
  pathlib.rfind c (s1 ++ String c s2)%string = Z.of_nat (String.length s1).
Proof.
  intros Hc. induction s1 as [|a s1 IH].
  - simpl. rewrite rfind_absent by done. simpl. by rewrite Ascii.eqb_refl.
  - change (pathlib.rfind c (String a s1 ++ String c s2)%string)
      with (let r := pathlib.rfind c (s1 ++ String c s2)%string in
            if (0 <=? r)%Z then (r + 1)%Z
            else if Ascii.eqb a c then 0%Z else (-1)%Z).
    rewrite IH. cbv zeta.
    change (String.length (String a s1)) with (S (String.length s1)).
    destruct (Z.leb_spec 0 (Z.of_nat (String.length s1))); lia.
Qed.

Lemma slice_from_app s1 s2 :
  pathlib.slice_from (String.length s1) (s1 ++ s2)%string = s2.
Proof. induction s1 as [|a s1 IH]; simpl; [by destruct s2|done]. Qed.



Section Extension.

Context `{Library}.

(** X1.  The extension [process_file] goes by is the part of the name
    after the last dot: for a name [stem.ext] with a non-empty stem and a
    non-empty [ext] without a dot, whatever dots the stem has, the suffix is
    [.ext], and a file whose [.ext] is [.pdf] in any case goes to the PDF
    handler with the destination [output_dir / stem.ext]. *)
Theorem last_extension_decides
    (dir output_dir : Path) (stem ext : string) (w : world) :
  stem ≠ "" → ext ≠ "" → "."%char ∉ list_ascii_of_string ext →
  pathlib.suffix (dir ++ [(stem ++ String "." ext)%string]) = String "." ext
  ∧ (lower (String "." ext) = ".pdf" →
     process_file (dir ++ [(stem ++ String "." ext)%string]) output_dir w
     = strip_pdf_metadata (dir ++ [(stem ++ String "." ext)%string])
         (output_dir ++ [(stem ++ String "." ext)%string]) w).
Proof.
  intros Hstem Hext Hdot.
  assert (Hsuffix : pathlib.suffix (dir ++ [(stem ++ String "." ext)%string])
                    = String "." ext).
  { unfold pathlib.suffix. rewrite name_of_file, rfind_app by done.
    rewrite string_length_app. simpl.
    assert (String.length stem ≠ 0) by (by destruct stem).
    assert (String.length ext ≠ 0) by (by destruct ext).
    destruct (Z.ltb_spec 0 (Z.of_nat (String.length stem))); [|lia].
    destruct (Z.ltb_spec (Z.of_nat (String.length stem))
                (Z.of_nat (String.length stem + S (String.length ext)) - 1)); [|lia].
    simpl. rewrite Nat2Z.id. apply slice_from_app. }
  split; [done|]. intros Hpdf. unfold process_file. rewrite Hsuffix, Hpdf.
  rewrite name_of_file, joinpath_name; [done|]. by destruct stem.
Qed.


End Extension.

(** ** The output directory and the entry point *)

Lemma try_except_inv {A} (m : M A) (h : exn → M A) w r w' :
  try_except m h w = (r, w') →
  (∃ a, m w = (Ok a, w') ∧ r = Ok a)
  ∨ (∃ e w1, m w = (Raise e, w1) ∧ h e w1 = (r, w')).
Proof.
  unfold try_except. destruct (m w) as [[a|e] w1]; intros Hr.
  - left. inversion Hr; subst. eauto.
  - right. eauto.
Qed.

Lemma os_mkdir_inv p w r w' :
  os_mkdir p w = (r, w') →
  (r = Ok tt ∧ fs w !! p = None ∧ fs w !! parent p = Some Dir
   ∧ w' = World (<[p := Dir]> (fs w)) (log w))
  ∨ (∃ e, r = Raise e ∧ w' = w
          ∧ (exn_class e = "FileNotFoundError" →
             fs w !! p = None ∧ fs w !! parent p = None)
          ∧ (exn_class e = "FileExistsError" ∨ exn_class e = "NotADirectoryError"
             ∨ exn_class e = "FileNotFoundError")).
Proof.
  unfold os_mkdir. destruct (fs w !! p) as [x|] eqn:Ep.
  - intros Hr. inversion Hr; subst. right. eexists. do 2 (split; [done|]).
    split; [done|by left].
  - destruct (fs w !! parent p) as [[|b]|] eqn:Epar; intros Hr; inversion Hr; subst.
    + by left.
    + right. eexists. do 2 (split; [done|]). split; [done|]. right. by left.
    + right. eexists. do 2 (split; [done|]). split; [done|]. right. by right.
Qed.

Lemma parent_rev_cons x rp : parent (rev (x :: rp)) = rev rp.
Proof. simpl. unfold parent. apply removelast_last. Qed.

Lemma mkdir_parents_unfold rp w :
  mkdir_parents rp w
  = try_except (os_mkdir (rev rp)) (fun e =>
      if String.eqb (exn_class e) "FileNotFoundError" then
        match rp with
        | [] => raise e
        | _ :: parent_parts => mkdir_parents parent_parts ;; mkdir_exist_ok (rev rp)
        end
      else is_d <- Path_is_dir (rev rp) ;; if is_d then ret tt else raise e) w.
Proof. by destruct rp. Qed.

Lemma mkdir_parents_exists rp w :
  fs w !! rev rp = Some Dir → mkdir_parents rp w = (Ok tt, w).
Proof.
  intros Hd. rewrite mkdir_parents_unfold. unfold try_except, os_mkdir.
  rewrite Hd. cbn [exn_class String.eqb Ascii.eqb Bool.eqb].
  unfold bind, Path_is_dir. by rewrite Hd.
Qed.

Lemma mkdir_parents_blocked rp w b :
  fs w !! rev rp = Some (File b) →
  mkdir_parents rp w = (Raise (Exn "FileExistsError" (pathlib.str (rev rp))), w).
Proof.
  intros Hd. rewrite mkdir_parents_unfold. unfold try_except, os_mkdir.
  rewrite Hd. cbn [exn_class String.eqb Ascii.eqb Bool.eqb].
  unfold bind, Path_is_dir. by rewrite Hd.
Qed.

Lemma mkdir_safe_refl p w : mkdir_safe p w w.
Proof. split; [done|]. split; [done|]. intros q Hq. by left. Qed.

Lemma mkdir_safe_trans p p' w1 w2 w3 :
  p `prefix_of` p' → mkdir_safe p w1 w2 → mkdir_safe p' w2 w3 → mkdir_safe p' w1 w3.
Proof.
  intros Hp (Hl1 & He1 & Hn1) (Hl2 & He2 & Hn2). split; [congruence|]. split.
  - intros q x Hq. by apply He2, He1.
  - intros q Hq. destruct (Hn1 q Hq) as [Hq1|[Hq1 Hpre]].
    + by apply Hn2.
    + right. split; [by apply He2|]. by etrans.
Qed.

Lemma os_mkdir_safe p w r w' : os_mkdir p w = (r, w') → mkdir_safe p w w'.
Proof.
  intros [(_ & Hp & _ & ->)|(e & _ & -> & _)]%os_mkdir_inv; [|apply mkdir_safe_refl].
  split; [done|]. split; simpl.
  - intros q x Hq. rewrite lookup_insert_ne; [done|]. congruence.
  - intros q Hq. destruct (decide (p = q)) as [->|Hne].
    + right. by rewrite lookup_insert_eq.
    + left. by rewrite lookup_insert_ne.
Qed.

Lemma mkdir_handler_safe p e w r w' :
  (is_d <- Path_is_dir p ;; if is_d then ret tt else raise e) w = (r, w') → w' = w.
Proof.
  unfold bind, Path_is_dir, ret, raise.
  destruct (fs w !! p) as [[|b]|]; intros Hr; by inversion Hr.
Qed.

Lemma mkdir_exist_ok_safe p w r w' :
  mkdir_exist_ok p w = (r, w') → mkdir_safe p w w'.
Proof.
  unfold mkdir_exist_ok.
  intros [(a & Hm & _)|(e & w1 & Hm & Hh)]%try_except_inv.
  - by eapply os_mkdir_safe.
  - apply os_mkdir_inv in Hm as [(? & _)|(e' & He & -> & _)]; [done|].
    inversion He; subst.
    destruct (String.eqb (exn_class e') "FileNotFoundError").
    + unfold raise in Hh. inversion Hh; subst. apply mkdir_safe_refl.
    + apply mkdir_handler_safe in Hh as ->. apply mkdir_safe_refl.
Qed.

Lemma mkdir_parents_safe rp : ∀ w r w',
  mkdir_parents rp w = (r, w') → mkdir_safe (rev rp) w w'.
Proof.
  induction rp as [|x rp IH]; intros w r w';
    rewrite mkdir_parents_unfold;
    intros [(a & Hm & _)|(e & w1 & Hm & Hh)]%try_except_inv;
    try (by eapply os_mkdir_safe);
    apply os_mkdir_inv in Hm as [(? & _)|(e' & He & -> & _)]; try done;
    inversion He; subst;
    destruct (String.eqb (exn_class e') "FileNotFoundError");
    try (apply mkdir_handler_safe in Hh as ->; apply mkdir_safe_refl).
  - unfold raise in Hh. inversion Hh; subst. apply mkdir_safe_refl.
  - apply bind_inv in Hh as [([] & w2 & Hpar & Hself)|(e & Hpar & _)].
    + eapply (mkdir_safe_trans (rev rp)); [|by eapply IH|by eapply mkdir_exist_ok_safe].
      simpl. by apply prefix_app_r.
    + eapply (mkdir_safe_trans (rev rp) _ w w' w');
        [|by eapply IH|apply mkdir_safe_refl].
      simpl. by apply prefix_app_r.
Qed.

Lemma Path_mkdir_safe p w r w' : Path_mkdir p w = (r, w') → mkdir_safe p w w'.
Proof.
  unfold Path_mkdir. intros E. apply mkdir_parents_safe in E.
  by rewrite rev_involutive in E.
Qed.

(** X12.  Whatever its outcome, [output_dir.mkdir(parents=True,
    exist_ok=True)] logs nothing, leaves every existing file and directory as
    it is, and adds nothing but directories on the way to [output_dir]. *)
Theorem mkdir_touches_nothing_existing (p : Path) (w : world) :
  ∃ r w', Path_mkdir p w = (r, w')
          ∧ log w' = log w
          ∧ (∀ q x, fs w !! q = Some x → fs w' !! q = Some x)
          ∧ (∀ q, fs w !! q = None →
                  fs w' !! q = None ∨ (fs w' !! q = Some Dir ∧ q `prefix_of` p)).
Proof.
  destruct (Path_mkdir p w) as [r w'] eqn:E. exists r, w'. split; [done|].
  by apply Path_mkdir_safe in E.
Qed.

Lemma mkdir_exist_ok_creates p w :
  fs w !! p = None → fs w !! parent p = Some Dir →
  mkdir_exist_ok p w = (Ok tt, World (<[p := Dir]> (fs w)) (log w)).
Proof.
  intros Hp Hpar. unfold mkdir_exist_ok, try_except, os_mkdir. by rewrite Hp, Hpar.
Qed.

Lemma creatable_head f rp :
  creatable f rp → f !! rev rp = Some Dir ∨ f !! rev rp = None.
Proof. destruct rp; intros [?|[? _]]; eauto. Qed.

Lemma mkdir_parents_creates rp : ∀ w,
  creatable (fs w) rp →
  ∃ w', mkdir_parents rp w = (Ok tt, w') ∧ fs w' !! rev rp = Some Dir.
Proof.
  induction rp as [|x rp IH]; intros w Hc.
  - destruct Hc as [Hd|[_ []]]. exists w. split; [|done].
    by apply mkdir_parents_exists.
  - destruct Hc as [Hd|[Hn Hc]].
    + exists w. split; [|done]. by apply mkdir_parents_exists.
    + rewrite mkdir_parents_unfold. unfold try_except at 1. unfold os_mkdir at 1.
      rewrite Hn, parent_rev_cons.
      destruct (fs w !! rev rp) as [[|b]|] eqn:Epar.
      * eexists. split; [done|]. cbn [fs]. by rewrite lookup_insert_eq.
      * destruct (creatable_head _ _ Hc); congruence.
      * cbn [exn_class String.eqb Ascii.eqb Bool.eqb].
        destruct (IH w) as (w1 & Hrun & Hdir); [done|].
        unfold bind. rewrite Hrun.
        pose proof (mkdir_parents_safe _ _ _ _ Hrun) as (_ & _ & Hnew).
        assert (Hself : fs w1 !! rev (x :: rp) = None).
        { destruct (Hnew _ Hn) as [?|[_ Hpre]]; [done|].
          apply prefix_length in Hpre. simpl in Hpre.
          rewrite length_app in Hpre. simpl in Hpre. lia. }
        rewrite mkdir_exist_ok_creates by (by rewrite ?parent_rev_cons).
        eexists. split; [done|]. cbn [fs]. by rewrite lookup_insert_eq.
Qed.

Lemma Path_mkdir_creates (p : Path) (w : world) :
  creatable (fs w) (rev p) →
  ∃ w', Path_mkdir p w = (Ok tt, w')
        ∧ fs w' !! p = Some Dir
        ∧ (fs w !! p = Some Dir → w' = w).
Proof.
  intros Hc. destruct (mkdir_parents_creates _ _ Hc) as (w' & Hrun & Hdir).
  exists w'. unfold Path_mkdir. split; [done|]. rewrite rev_involutive in Hdir.
  split; [done|]. intros Hd.
  rewrite mkdir_parents_exists in Hrun by (by rewrite rev_involutive).
  by inversion Hrun.
Qed.

Section Entry.

Context `{Library}.

(** X13.  When, going up from the output directory, the first path that
    exists is a directory, [main] makes the output directory and its missing
    parents before anything is processed, without a log record and without
    touching what exists, and does nothing at all there when the directory is
    already in place; a regular-file input is then dispatched in that
    world. *)
Theorem main_prepares_output_directory
    (args : Namespace) (otherwise : M unit) (w : world) :
  creatable (fs w) (rev (output args)) →
  ∃ w1, fs w1 !! output args = Some Dir
        ∧ log w1 = log w
        ∧ (∀ q x, fs w !! q = Some x → fs w1 !! q = Some x)
        ∧ (fs w !! output args = Some Dir → w1 = w)
        ∧ main args otherwise w
          = match fs w !! input_path args with
            | Some (File _) => process_file (input_path args) (output args) w1
            | _ => otherwise w1
            end.
Proof.
  intros Hc. destruct (Path_mkdir_creates _ _ Hc) as (w1 & Hmk & Hdir & Hid).
  pose proof (Path_mkdir_safe _ _ _ _ Hmk) as (Hlog & Hkeep & Hnew).
  exists w1. do 4 (split; [done|]).
  unfold main. unfold bind at 1. rewrite Hmk. unfold bind, Path_is_file.
  destruct (fs w !! input_path args) as [[|b]|] eqn:E.
  - by rewrite (Hkeep _ _ E).
  - by rewrite (Hkeep _ _ E).
  - destruct (Hnew _ E) as [->|[-> _]]; done.
Qed.

(** X14.  When the output path is an existing regular file, [main] raises
    [FileExistsError] out of [mkdir]: nothing is dispatched, nothing is
    logged, the file system is as it was. *)
Theorem main_aborts_on_blocked_output (args : Namespace) (otherwise : M unit)
    (w : world) (b : bytes) :
  fs w !! output args = Some (File b) →
  main args otherwise w
  = (Raise (Exn "FileExistsError" (pathlib.str (output args))), w).
Proof.
  intros Hout. unfold main, bind, Path_mkdir.
  rewrite (mkdir_parents_blocked _ _ b) by (by rewrite rev_involutive).
  by rewrite rev_involutive.
Qed.

(** X15.  End to end: for a regular file with the extension [.pdf] that
    parses, an output directory that can be made and a destination that is
    not a directory, [main] returns normally, the output directory exists,
    the destination holds what [writer.write] wrote for the pages of the
    input and no info dictionary, and the one record logged is the success,
    or the error of [writer.write]. *)
Theorem main_sanitizes_a_pdf (args : Namespace) (otherwise : M unit) (w : world)
    (input : bytes) (reader : PdfFileReader) :
  creatable (fs w) (rev (output args)) →
  fs w !! input_path args = Some (File input) →
  lower (pathlib.suffix (input_path args)) = ".pdf" →
  pdf_parse input = Ok reader →
  fs w !! (output args ++ [pathlib.name (input_path args)]) ≠ Some Dir →
  let writer := set__info (fold_left add_page (pages reader) PdfWriter) None in
  let output_path := output args ++ [pathlib.name (input_path args)] in
  ∃ w', main args otherwise w = (Ok tt, w')
        ∧ fs w' !! output args = Some Dir
        ∧ fs w' !! output_path = Some (File (pdf_serialize writer).1)
        ∧ log w'
          = log w ++ [match (pdf_serialize writer).2 with
                      | None => (INFO, Sanitized PDF (input_path args) output_path)
                      | Some e => (ERROR, ErrorProcessing PDF (input_path args) e)
                      end].
Proof.
  intros Hc Hsrc Hext Hparse Hdest writer output_path.
  assert (Hname : pathlib.name (input_path args) ≠ "").
  { intros Hn. unfold pathlib.suffix in Hext. rewrite Hn in Hext. done. }
  destruct (Path_mkdir_creates _ _ Hc) as (w1 & Hmk & Hdir & _).
  pose proof (Path_mkdir_safe _ _ _ _ Hmk) as (Hlog & Hkeep & Hnew).
  assert (Hok : writable (fs w1) output_path).
  { split; [|unfold output_path; by rewrite parent_of_file].
    destruct (fs w !! output_path) as [[|b]|] eqn:E; [done| |].
    - by rewrite (Hkeep _ _ E).
    - destruct (Hnew _ E) as [->|[_ Hpre]]; [done|].
      apply prefix_length in Hpre. unfold output_path in Hpre.
      rewrite length_app in Hpre. simpl in Hpre. lia. }
  unfold main. unfold bind at 1. rewrite Hmk.
  unfold bind, Path_is_file. rewrite (Hkeep _ _ Hsrc).
  unfold process_file. rewrite Hext. simpl. rewrite joinpath_name by done.
  rewrite (strip_pdf_metadata_run _ _ _ Hok). unfold loaded.
  rewrite (Hkeep _ _ Hsrc), Hparse.
  eexists. split; [done|]. cbn [fs log].
  split; [|split].
  - rewrite lookup_insert_ne; [done|]. unfold output_path. intros Heq.
    apply (f_equal (@List.length string)) in Heq. rewrite length_app in Heq.
    simpl in Heq. lia.
  - by rewrite lookup_insert_eq.
  - by rewrite Hlog.
Qed.

End Entry.

(** ** What a walk leaves behind *)

Lemma nested_grows_back f f' top ds :
  fs_grows f f' → nested f' top ds → nested f top ds.
Proof.
  intros [Hd _]. revert top. induction ds as [|d ds IH]; intros top; simpl.
  - apply Hd.
  - intros (Ht & Hne & Hn). split; [by apply Hd|]. split; [done|]. by apply IH.
Qed.

Lemma under_grows_back f f' top p : fs_grows f f' → under f' top p → under f top p.
Proof.
  intros Hg (ds & file & -> & Hne & Hn). exists ds, file.
  split; [done|]. split; [done|]. by eapply nested_grows_back.
Qed.

Lemma under_child f top d p :
  d ≠ "" → f !! top = Some Dir → under f (top ++ [d]) p → under f top p.
Proof.
  intros Hd Htop (ds & file & -> & Hne & Hn). exists (d :: ds), file.
  split; [by rewrite <- app_assoc|]. split; [done|]. by split.
Qed.

Lemma walked_refl output_dir top w : walked output_dir top w w.
Proof.
  split; [apply fs_grows_refl|]. exists []. rewrite app_nil_r. split; [done|].
  split; [by intros p ?%elem_of_nil|]. done.
Qed.

Lemma walked_trans output_dir top w u w' :
  walked output_dir top w u → walked output_dir top u w' → walked output_dir top w w'.
Proof.
  intros (Hg1 & recs1 & Hl1 & Hu1 & Hf1) (Hg2 & recs2 & Hl2 & Hu2 & Hf2).
  split; [by eapply fs_grows_trans|].
  exists (recs1 ++ recs2). split; [by rewrite Hl2, Hl1, <- app_assoc|].
  rewrite fmap_app. split.
  - intros p [Hp|Hp]%elem_of_app.
    + destruct (Hu1 p Hp) as [Hunder Hfile]. split; [done|].
      by eapply is_file_grows.
    + destruct (Hu2 p Hp) as [Hunder Hfile]. split; [|done].
      by eapply under_grows_back.
  - intros q Hq. rewrite Hf2, Hf1; [done|..].
    + intros p Hp. apply Hq, elem_of_app. by left.
    + intros p Hp. apply Hq, elem_of_app. by right.
Qed.

Lemma walked_child output_dir top d w w' :
  d ≠ "" → fs w !! top = Some Dir →
  walked output_dir (top ++ [d]) w w' → walked output_dir top w w'.
Proof.
  intros Hd Htop (Hg & recs & Hl & Hu & Hf). split; [done|].
  exists recs. split; [done|]. split; [|done].
  intros p Hp. destruct (Hu p Hp) as [Hunder Hfile]. split; [|done].
  by eapply under_child.
Qed.

Section WalkSound.

Context `{Library}.

Lemma process_file_walked output_dir top file w w' :
  file ≠ "" → fs w !! top = Some Dir → is_file (fs w) (top ++ [file]) →
  file_outcome (top ++ [file]) output_dir w w' →
  walked output_dir top w w'.
Proof.
  intros Hne Htop Hfile Hout.
  pose proof (file_outcome_grows _ _ _ _ Hout) as Hg.
  destruct (file_outcome_log _ _ _ _ Hout) as (l & m & Hlog & Hm).
  split; [done|]. exists [(l, m)]. split; [done|]. split.
  - intros p Hp. apply list_elem_of_singleton in Hp. simpl in Hp. subst p.
    rewrite Hm. split; [|by eapply is_file_grows].
    exists [], file. by split.
  - intros q Hq. eapply file_outcome_frame; [done|].
    apply (Hq (top ++ [file])). apply list_elem_of_singleton. simpl. by rewrite Hm.
Qed.

Lemma for_each_walked output_dir top files : ∀ w,
  fs w !! top = Some Dir →
  (∀ file, file ∈ files → file ≠ "" ∧ is_file (fs w) (top ++ [file])) →
  ∃ w', for_each files
          (fun file => process_file (pathlib.joinpath top file) output_dir) w
        = (Ok tt, w')
        ∧ walked output_dir top w w'.
Proof.
  induction files as [|file files IH]; intros w Htop Hfiles; simpl.
  - exists w. split; [done|]. apply walked_refl.
  - destruct (Hfiles file) as [Hne Hfile]; [by left|].
    rewrite joinpath_name by done.
    destruct (process_file_outcome (top ++ [file]) output_dir w) as (w1 & Hrun & Hout).
    pose proof (process_file_walked _ _ _ _ _ Hne Htop Hfile Hout) as Hw1.
    destruct Hw1 as [Hg Hrest].
    destruct (IH w1) as (w' & Hrun' & Hw').
    + by apply Hg.
    + intros f Hf. destruct (Hfiles f) as [Hnf Hff]; [by right|].
      split; [done|]. by eapply is_file_grows.
    + exists w'. unfold bind. rewrite Hrun. split; [done|].
      eapply walked_trans; [|done]. by split.
Qed.

Lemma walk_sound output_dir recursive fuel : ∀ top w r w',
  os.walk fuel top (process_directory_body output_dir recursive) w = Some (r, w') →
  (∃ c, r = Ok c) ∧ walked output_dir top w w'.
Proof.
  induction fuel as [|n IH]; intros top w r w'; [done|].
  rewrite walk_unfold.
  destruct (os.scandir (fs w) top) as [entries|] eqn:Hscan.
  - pose proof (scandir_dir _ _ _ Hscan) as Htop.
    destruct (for_each_walked output_dir top
                (List.filter (fun e => negb (os.is_dir e)) entries).*1 w Htop)
      as (w1 & Hrun & Hw1).
    { intros file [b Hb]%listed_nondirs.
      apply (scandir_spec _ _ _ _ _ Hscan) in Hb as [Hne Hb].
      split; [done|]. by exists b. }
    unfold process_directory_body at 1. unfold bind at 1. rewrite Hrun.
    destruct recursive; simpl.
    + assert (Hdirs : ∀ d, d ∈ (List.filter os.is_dir entries).*1 → d ≠ "").
      { intros d Hd%listed_dirs.
        by apply (scandir_spec _ _ _ _ _ Hscan) in Hd as [Hne _]. }
      revert Hdirs. generalize ((List.filter os.is_dir entries).*1). intros dirs.
      assert (Htop1 : fs w1 !! top = Some Dir) by (by apply Hw1).
      revert Hw1 Htop1. generalize w1. clear Hrun.
      induction dirs as [|d dirs IHd]; intros u Hu Htop1 Hdirs; simpl.
      * intros Hr. inversion Hr; subst. split; [by eexists|done].
      * assert (Hd : d ≠ "") by (apply Hdirs; by left).
        rewrite joinpath_name by done.
        destruct (os.walk n (top ++ [d]) (process_directory_body output_dir true) u)
          as [[r1 u1]|] eqn:Hvisit; [|done].
        destruct (IH _ _ _ _ Hvisit) as [[c ->] Hu1].
        apply (walked_child _ _ _ _ _ Hd Htop1) in Hu1.
        destruct c.
        -- apply IHd.
           ++ by eapply walked_trans.
           ++ by apply Hu1.
           ++ intros d' Hd'. apply Hdirs. by right.
        -- intros Hr. inversion Hr; subst. split; [by eexists|].
           by eapply walked_trans.
    + intros Hr. inversion Hr; subst. split; [by eexists|done].
  - intros Hr. inversion Hr; subst. split; [by eexists|apply walked_refl].
Qed.

(** X9.  A walk that completes never raises, keeps every directory and
    every file (no directory is made or removed, no file is removed), and
    changes the file system at destinations of dispatched files only: every
    path that is not [output_dir / name] for a dispatched file reads as
    before. *)
Theorem process_directory_writes_into_output_dir_only
    (fuel : nat) (input_dir output_dir : Path) (recursive : bool)
    (w w' : world) (r : result unit) :
  process_directory fuel input_dir output_dir recursive w = Some (r, w') →
  r = Ok tt
  ∧ (∀ q, fs w !! q = Some Dir ↔ fs w' !! q = Some Dir)
  ∧ (∀ q b, fs w !! q = Some (File b) → ∃ b', fs w' !! q = Some (File b'))
  ∧ (∀ q, (∀ p, p ∈ dispatched w w' →
                q ≠ pathlib.joinpath output_dir (pathlib.name p)) →
          fs w' !! q = fs w !! q).
Proof.
  unfold process_directory.
  destruct (os.walk fuel input_dir (process_directory_body output_dir recursive) w)
    as [[r1 w1]|] eqn:Hwalk; [|done].
  destruct (walk_sound _ _ _ _ _ _ _ Hwalk) as [[c ->] ([Hd Hf] & recs & Hl & _ & Hfr)].
  intros Hr. inversion Hr; subst. split; [done|]. split; [done|]. split; [done|].
  by rewrite (dispatched_app _ _ _ Hl).
Qed.

(** X16.  A walk dispatches nothing but files below the input directory:
    every dispatched path is a file name at the end of a chain of directories
    nested in [input_dir], and it is a regular file. *)
Theorem process_directory_dispatches_files_below_input_only
    (fuel : nat) (input_dir output_dir : Path) (recursive : bool)
    (w w' : world) (r : result unit) :
  process_directory fuel input_dir output_dir recursive w = Some (r, w') →
  ∀ p, p ∈ dispatched w w' →
       (∃ ds file, p = input_dir ++ ds ++ [file] ∧ file ≠ ""
                   ∧ nested (fs w) input_dir ds)
       ∧ is_file (fs w') p.
Proof.
  unfold process_directory.
  destruct (os.walk fuel input_dir (process_directory_body output_dir recursive) w)
    as [[r1 w1]|] eqn:Hwalk; [|done].
  destruct (walk_sound _ _ _ _ _ _ _ Hwalk) as [[c ->] (_ & recs & Hl & Hu & _)].
  intros Hr p Hp. inversion Hr; subst.
  rewrite (dispatched_app _ _ _ Hl) in Hp. by apply Hu.
Qed.

(** X10.  On an input path that is not a directory (a regular file, or
    nothing), [process_directory] does nothing: no file is dispatched, no
    record is logged, not even a warning. *)
Theorem process_directory_of_a_non_directory
    (fuel : nat) (input_dir output_dir : Path) (recursive : bool) (w : world) :
  fs w !! input_dir ≠ Some Dir →
  process_directory (S fuel) input_dir output_dir recursive w = Some (Ok tt, w).
Proof.
  intros Hnd. unfold process_directory. rewrite walk_unfold.
  destruct (os.scandir (fs w) input_dir) as [entries|] eqn:Hscan; [|done].
  by apply scandir_dir in Hscan.
Qed.

End WalkSound.

(** ** The claims on the sample tree *)

#[local] Existing Instance Toy.library.

(** C5, as the specification words it, fails: on [in/bad.pdf] the writer
    raises once the destination is open, an error is logged, and
    [out/bad.pdf], which did not exist, is left with the bytes written until
    then. *)
Lemma no_output_on_failure_refuted : ¬ no_output_on_failure.
Proof.
  intros Hclaim.
  pose proof (Hclaim Toy.library ["in"; "bad.pdf"] ["out"; "bad.pdf"] Toy.world0
                (strip_pdf_metadata ["in"; "bad.pdf"] ["out"; "bad.pdf"] Toy.world0).2
                (Exn "PdfReadError" "Unable to find 'endstream' marker")
                eq_refl eq_refl) as Hsame.
  vm_compute in Hsame. discriminate Hsame.
Qed.




Lemma handlers_catch_every_error_witness :
  let raised := strip_pdf_metadata_try ["in"; "bad.pdf"] ["out"; "bad.pdf"] Toy.world0 in
  raised.1 = Raise (Exn "PdfReadError" "Unable to find 'endstream' marker")
  ∧ strip_pdf_metadata ["in"; "bad.pdf"] ["out"; "bad.pdf"] Toy.world0
    = (Ok tt,
       World (fs raised.2)
             (log raised.2
              ++ [(ERROR, ErrorProcessing PDF ["in"; "bad.pdf"]
                            (Exn "PdfReadError" "Unable to find 'endstream' marker"))])).
Proof.
  intros raised. split; [reflexivity|].
  destruct (handlers_catch_every_error ["in"; "bad.pdf"] ["out"; "bad.pdf"] Toy.world0)
    as [(w' & Hrun & Hcaught) _].
  rewrite Hrun. f_equal.
  apply (Hcaught (Exn "PdfReadError" "Unable to find 'endstream' marker") raised.2).
  reflexivity.
Defined.

Lemma failure_output_witness :
  let w' := (strip_pdf_metadata ["in"; "bad.pdf"] ["out"; "bad.pdf"] Toy.world0).2 in
  let e := Exn "PdfReadError" "Unable to find 'endstream' marker" in
  strip_pdf_metadata ["in"; "bad.pdf"] ["out"; "bad.pdf"] Toy.world0 = (Ok tt, w')
  ∧ log w' = log Toy.world0 ++ [(ERROR, ErrorProcessing PDF ["in"; "bad.pdf"] e)]
  ∧ (fs w' = fs Toy.world0
     ∨ ∃ input reader,
         fs Toy.world0 !! ["in"; "bad.pdf"] = Some (File input)
         ∧ pdf_parse input = Ok reader
         ∧ writable (fs Toy.world0) ["out"; "bad.pdf"]
         ∧ let writer := set__info (fold_left add_page (pages reader) PdfWriter) None in
           (pdf_serialize writer).2 = Some e
           ∧ fs w' = <[["out"; "bad.pdf"] := File (pdf_serialize writer).1]>
                       (fs Toy.world0)).
Proof.
  intros w' e. split; [reflexivity|]. split; [reflexivity|].
  apply (proj1 (failure_output ["in"; "bad.pdf"] ["out"; "bad.pdf"] Toy.world0) w' e);
    reflexivity.
Defined.

Lemma process_file_routes_witness :
  process_file ["in"; "a.pdf"] ["out"] Toy.world0
  = strip_pdf_metadata ["in"; "a.pdf"] ["out"; "a.pdf"] Toy.world0
  ∧ process_file ["in"; "b.docx"] ["out"] Toy.world0
    = strip_docx_metadata ["in"; "b.docx"] ["out"; "b.docx"] Toy.world0
  ∧ process_file ["in"; "c.PNG"] ["out"] Toy.world0
    = strip_image_metadata ["in"; "c.PNG"] ["out"; "c.PNG"] Toy.world0
  ∧ process_file ["in"; "notes.txt"] ["out"] Toy.world0
    = (Ok tt, World (fs Toy.world0)
                    (log Toy.world0 ++ [(WARNING, UnsupportedFileType ["in"; "notes.txt"])])).
Proof.
  split; [|split; [|split]].
  - apply (process_file_routes ["in"; "a.pdf"] ["out"] Toy.world0). reflexivity.
  - apply (process_file_routes ["in"; "b.docx"] ["out"] Toy.world0). reflexivity.
  - apply (process_file_routes ["in"; "c.PNG"] ["out"] Toy.world0).
    apply (bool_decide_unpack _). vm_compute. exact I.
  - apply (process_file_routes ["in"; "notes.txt"] ["out"] Toy.world0).
    apply (bool_decide_unpack _). vm_compute. exact I.
Defined.

Lemma empty_suffix_unsupported_witness :
  process_file ["in"; "README"] ["out"] Toy.world0
  = (Ok tt, World (fs Toy.world0)
                  (log Toy.world0 ++ [(WARNING, UnsupportedFileType ["in"; "README"])]))
  ∧ pathlib.suffix ["in"; "README"] = ""
  ∧ pathlib.suffix ["in"; ".pdf"] = "".
Proof.
  split; [|split].
  - apply (empty_suffix_unsupported ["in"; "README"] ["out"] Toy.world0). reflexivity.
  - apply (empty_suffix_unsupported ["in"; "README"] ["out"] Toy.world0).
    apply (bool_decide_unpack _). vm_compute. exact I.
  - apply (proj2 (proj2 (empty_suffix_unsupported ["in"; ".pdf"] ["out"] Toy.world0))
             "pdf"); [reflexivity|].
    apply (bool_decide_unpack _). vm_compute. exact I.
Defined.


Lemma source_is_only_read_witness :
  pathlib.joinpath ["out"] (pathlib.name ["in"; "a.pdf"]) ≠ ["in"; "a.pdf"]
  ∧ ∃ w', process_file ["in"; "a.pdf"] ["out"] Toy.world0 = (Ok tt, w')
          ∧ fs w' !! ["in"; "a.pdf"] = fs Toy.world0 !! ["in"; "a.pdf"].
Proof.
  split; [discriminate|].
  destruct (source_is_only_read ["in"; "a.pdf"] ["out"] Toy.world0)
    as (w' & Hrun & _ & Hsource).
  exists w'. split; [exact Hrun|]. apply Hsource. discriminate.
Defined.

Lemma process_directory_walk_witness :
  (max_depth (fs Toy.world0) < 4)%nat
  ∧ (∃ w', process_directory 4 ["in"] ["out"] false Toy.world0 = Some (Ok tt, w')
           ∧ dispatched Toy.world0 w'
             = pathlib.joinpath ["in"] <$> listed_files (fs Toy.world0) ["in"])
  ∧ (∃ w', process_directory 4 ["in"] ["out"] true Toy.world0 = Some (Ok tt, w')
           ∧ ["in"; "sub"; "a.pdf"] ∈ dispatched Toy.world0 w').
Proof.
  assert (Hfuel : (max_depth (fs Toy.world0) < 4)%nat) by (vm_compute; lia).
  split; [exact Hfuel|].
  destruct (process_directory_walk 4 ["in"] ["out"] Toy.world0 Hfuel)
    as [(w1 & Hrun1 & Hfiles & _) (w2 & Hrun2 & Hall)].
  split.
  - exists w1. by split.
  - exists w2. split; [exact Hrun2|].
    apply (Hall ["sub"] "a.pdf").
    + simpl. repeat split; try reflexivity; discriminate.
    + discriminate.
    + eexists. reflexivity.
Defined.

(** ** The further properties on the sample trees *)

Lemma last_extension_decides_witness :
  pathlib.suffix ["in"; "A.B.PDF"] = ".PDF"
  ∧ process_file ["in"; "A.B.PDF"] ["out"] Sample.world1
    = strip_pdf_metadata ["in"; "A.B.PDF"] ["out"; "A.B.PDF"] Sample.world1.
Proof.
  destruct (last_extension_decides ["in"] ["out"] "A.B" "PDF" Sample.world1)
    as [Hsuffix Hroute].
  - discriminate.
  - discriminate.
  - apply (bool_decide_unpack _). vm_compute. exact I.
  - split; [exact Hsuffix|]. apply Hroute. reflexivity.
Defined.


Lemma unreadable_source_is_logged_witness :
  ∃ e, strip_pdf_metadata ["in"; "gone.pdf"] ["out"; "gone.pdf"] Toy.world0
       = (Ok tt,
          World (fs Toy.world0)
                (log Toy.world0 ++ [(ERROR, ErrorProcessing PDF ["in"; "gone.pdf"] e)])).
Proof.
  destruct (unreadable_source_is_logged ["in"; "gone.pdf"] ["out"; "gone.pdf"]
              Toy.world0) as (e & _ & Hpdf & _).
  - intros b. vm_compute. discriminate.
  - by exists e.
Defined.

Lemma unwritable_destination_is_logged_witness :
  ∃ e, strip_pdf_metadata ["in"; "a.pdf"] ["nowhere"; "a.pdf"] Toy.world0
       = (Ok tt,
          World (fs Toy.world0)
                (log Toy.world0 ++ [(ERROR, ErrorProcessing PDF ["in"; "a.pdf"] e)])).
Proof.
  apply (unwritable_destination_is_logged ["in"; "a.pdf"] ["nowhere"; "a.pdf"]
           Toy.world0).
  intros [_ Hparent]. vm_compute in Hparent. discriminate.
Defined.


Lemma pdf_in_place_overwrites_source_witness :
  ∃ w', process_file ["in"; "a.pdf"] ["in"] Toy.world0 = (Ok tt, w')
        ∧ fs w' !! ["in"; "a.pdf"] = Some (File [x25; x00; x41; x42])
        ∧ fs Toy.world0 !! ["in"; "a.pdf"] = Some (File [x25; x01; x41; x42]).
Proof.
  destruct (pdf_in_place_overwrites_source ["in"] "a.pdf" Toy.world0
              [x25; x01; x41; x42]
              {| pages := [[x41]; [x42]]; metadata := Some [("/Author", "alice")] |})
    as (w' & Hrun & Hsource).
  - discriminate.
  - reflexivity.
  - vm_compute. reflexivity.
  - vm_compute. reflexivity.
  - reflexivity.
  - exists w'. split; [exact Hrun|]. split; [exact Hsource|].
    vm_compute. reflexivity.
Defined.


Lemma docx_tree_is_pruned_witness :
  let w' := (strip_docx_metadata_try ["in"; "b.docx"] ["out"; "b.docx"] Toy.world0).2 in
  ∃ input doc doc' output,
    fs Toy.world0 !! ["in"; "b.docx"] = Some (File input)
    ∧ docx_parse input = Ok doc
    ∧ fs w' !! ["out"; "b.docx"] = Some (File output)
    ∧ docx_serialize doc' = Saved output
    ∧ element doc' = prune (element doc).
Proof.
  intros w'.
  apply (docx_tree_is_pruned ["in"; "b.docx"] ["out"; "b.docx"] Toy.world0 w').
  - reflexivity.
  - intros input doc Hinput Hdoc. vm_compute in Hinput. inversion Hinput; subst.
    vm_compute in Hdoc. inversion Hdoc; subst. simpl.
    repeat (apply List.NoDup_cons; [simpl; lia|]). apply List.NoDup_nil.
Defined.

Lemma process_directory_writes_into_output_dir_only_witness :
  ∃ w', process_directory 4 ["in"] ["out"] true Toy.world0 = Some (Ok tt, w')
        ∧ (∀ q, fs Toy.world0 !! q = Some Dir ↔ fs w' !! q = Some Dir)
        ∧ (∀ q b, fs Toy.world0 !! q = Some (File b) → ∃ b', fs w' !! q = Some (File b')).
Proof.
  destruct (process_directory 4 ["in"] ["out"] true Toy.world0) as [[r w']|] eqn:Erun;
    [|vm_compute in Erun; discriminate].
  destruct (process_directory_writes_into_output_dir_only
              4 ["in"] ["out"] true Toy.world0 w' r Erun) as (-> & Hdirs & Hfiles & _).
  exists w'. split; [reflexivity|]. split; [exact Hdirs|exact Hfiles].
Defined.

Lemma process_directory_of_a_non_directory_witness :
  process_directory 4 ["in"; "a.pdf"] ["out"] true Toy.world0 = Some (Ok tt, Toy.world0).
Proof.
  apply (process_directory_of_a_non_directory 3 ["in"; "a.pdf"] ["out"] true Toy.world0).
  vm_compute. discriminate.
Defined.


Lemma main_prepares_output_directory_witness :
  let args := {| input_path := ["in"; "a.pdf"]; output := ["out"; "clean"];
                 recursive := false; verbose := false |} in
  ∃ w1, fs w1 !! ["out"; "clean"] = Some Dir
        ∧ log w1 = log Sample.world1
        ∧ main args (ret tt) Sample.world1
          = process_file ["in"; "a.pdf"] ["out"; "clean"] w1.
Proof.
  intros args.
  destruct (main_prepares_output_directory args (ret tt) Sample.world1)
    as (w1 & Hdir & Hlog & _ & _ & Hmain).
  - simpl. right. split; [vm_compute; reflexivity|].
    right. split; [vm_compute; reflexivity|]. left. vm_compute. reflexivity.
  - exists w1. split; [exact Hdir|]. split; [exact Hlog|]. exact Hmain.
Defined.

Lemma main_aborts_on_blocked_output_witness :
  main {| input_path := ["in"; "a.pdf"]; output := ["taken"];
          recursive := false; verbose := false |} (ret tt) Sample.world1
  = (Raise (Exn "FileExistsError" "taken"), Sample.world1).
Proof.
  apply (main_aborts_on_blocked_output
           {| input_path := ["in"; "a.pdf"]; output := ["taken"];
              recursive := false; verbose := false |} (ret tt) Sample.world1
           [x68; x69]).
  vm_compute. reflexivity.
Defined.

Lemma main_sanitizes_a_pdf_witness :
  let args := {| input_path := ["in"; "a.pdf"]; output := ["out"; "clean"];
                 recursive := false; verbose := false |} in
  ∃ w', main args (ret tt) Sample.world1 = (Ok tt, w')
        ∧ fs w' !! ["out"; "clean"] = Some Dir
        ∧ fs w' !! ["out"; "clean"; "a.pdf"] = Some (File [x25; x00; x41; x42])
        ∧ log w' = [(INFO, Sanitized PDF ["in"; "a.pdf"] ["out"; "clean"; "a.pdf"])].
Proof.
  intros args.
  destruct (main_sanitizes_a_pdf args (ret tt) Sample.world1
              [x25; x01; x41; x42]
              {| pages := [[x41]; [x42]]; metadata := Some [("/Author", "alice")] |})
    as (w' & Hrun & Hdir & Hdest & Hlog).
  - simpl. right. split; [vm_compute; reflexivity|].
    right. split; [vm_compute; reflexivity|]. left. vm_compute. reflexivity.
  - vm_compute. reflexivity.
  - reflexivity.
  - reflexivity.
  - vm_compute. discriminate.
  - exists w'. split; [exact Hrun|]. split; [exact Hdir|]. split; [exact Hdest|].
    exact Hlog.
Defined.

Lemma process_directory_dispatches_files_below_input_only_witness :
  ∃ w', process_directory 4 ["in"] ["out"] true Toy.world0 = Some (Ok tt, w')
        ∧ ∀ p, p ∈ dispatched Toy.world0 w' →
               (∃ ds file, p = ["in"] ++ ds ++ [file] ∧ file ≠ ""
                           ∧ nested (fs Toy.world0) ["in"] ds)
               ∧ is_file (fs w') p.
Proof.
  destruct (process_directory 4 ["in"] ["out"] true Toy.world0) as [[r w']|] eqn:Erun;
    [|vm_compute in Erun; discriminate].
  pose proof (process_directory_dispatches_files_below_input_only
                4 ["in"] ["out"] true Toy.world0 w' r Erun) as Hbelow.
  destruct r as [[]|e]; [|vm_compute in Erun; discriminate].
  exists w'. split; [reflexivity|exact Hbelow].
Defined.

Lemma pdf_output_ignores_input_metadata_witness :
  let w2 := World (<[["in"; "a.pdf"] := File [x25; x00; x41; x42]]> Toy.tree) [] in
  ∃ w1' w2',
    strip_pdf_metadata ["in"; "a.pdf"] ["out"; "a.pdf"] Toy.world0 = (Ok tt, w1')
    ∧ strip_pdf_metadata ["in"; "a.pdf"] ["out"; "a.pdf"] w2 = (Ok tt, w2')
    ∧ fs w1' !! ["out"; "a.pdf"] = fs w2' !! ["out"; "a.pdf"]
    ∧ drop (List.length (log Toy.world0)) (log w1')
      = drop (List.length (log w2)) (log w2').
Proof.
  intros w2.
  apply (pdf_output_ignores_input_metadata ["in"; "a.pdf"] ["out"; "a.pdf"]
           Toy.world0 w2 [x25; x01; x41; x42] [x25; x00; x41; x42]
           {| pages := [[x41]; [x42]]; metadata := Some [("/Author", "alice")] |}
           {| pages := [[x41]; [x42]]; metadata := None |}).
  - vm_compute. reflexivity.
  - reflexivity.
  - vm_compute. reflexivity.
  - reflexivity.
  - reflexivity.
  - split; [vm_compute; discriminate|vm_compute; reflexivity].
  - split; [vm_compute; discriminate|vm_compute; reflexivity].
Defined.


